(** * The [dc:] import resolver of astro-dynamic-component

    A shallow embedding of [src/vite-plugin.mjs]: the import-string parser,
    the glob base extractor, the alias resolver, the name/hash generator,
    the virtual module synthesizer and the resolution orchestrator with its
    cache, followed by the properties the specification states about them.

    Conventions of the embedding.
    - A JavaScript string is a [string]: one [ascii] per UTF-16 code unit,
      which covers the code units 0..255.  Within that range the line
      terminators of the regular-expression dot are LF and CR.
    - An index that JavaScript reports as -1 is [None].
    - [node:path] is the POSIX flavour; [process.cwd()], [fast-glob] and
      [get-tsconfig] are parameters of the plugin's environment.
    - [resolveId] and [load] thread the plugin's mutable state explicitly;
      console warnings, logger calls and calls of the synthesizer are
      recorded in a trace.
    - [resolveId] suspends once, at the glob: [resolveRequest] is its code
      before that point and [resolveFiles] its code after it.  The cache is
      read and written in the second part only, which runs to completion,
      so resolutions that overlap at the glob act on the cache as
      resolutions in sequence do. *)

From stdpp Require Import gmap strings list sorting pretty.
From Stdlib Require Import ZArith Ascii String.

(** ** JavaScript string primitives *)

Module JS.

Definition LF : ascii := ascii_of_nat 10.
Definition CR : ascii := ascii_of_nat 13.
Definition DQ : ascii := ascii_of_nat 34.

(** The one-character strings that cannot be written as literals here. *)
Definition nl : string := String LF EmptyString.
Definition dq : string := String DQ EmptyString.

Definition str (c : ascii) : string := String c EmptyString.

Fixpoint take (n : nat) (s : string) : string :=
  match n, s with
  | S n', String a s' => String a (take n' s')
  | _, _ => EmptyString
  end.

Fixpoint drop (n : nat) (s : string) : string :=
  match n, s with
  | S n', String _ s' => drop n' s'
  | _, _ => s
  end.

(** [s.slice(start, end)] for non-negative indices. *)
Definition slice (start end_ : nat) (s : string) : string :=
  take (end_ - start) (drop start s).

(** [s.slice(start)]. *)
Definition sliceFrom (start : nat) (s : string) : string := drop start s.

(** [s.startsWith(p)]. *)
Fixpoint startsWith (p s : string) : bool :=
  match p, s with
  | EmptyString, _ => true
  | String a p', String b s' => Ascii.eqb a b && startsWith p' s'
  | String _ _, EmptyString => false
  end.

(** [s.endsWith(p)]. *)
Definition endsWith (p s : string) : bool :=
  String.eqb (drop (String.length s - String.length p) s) p
  && (String.length p <=? String.length s)%nat.

(** [s.indexOf(c)] for a one-character needle. *)
Fixpoint indexOf (c : ascii) (s : string) : option nat :=
  match s with
  | EmptyString => None
  | String a s' => if Ascii.eqb a c then Some 0 else S <$> indexOf c s'
  end.

(** [s.lastIndexOf(c)] for a one-character needle. *)
Fixpoint lastIndexOf (c : ascii) (s : string) : option nat :=
  match s with
  | EmptyString => None
  | String a s' =>
      match lastIndexOf c s' with
      | Some i => Some (S i)
      | None => if Ascii.eqb a c then Some 0 else None
      end
  end.

(** [s.includes(c)] for a one-character needle. *)
Fixpoint includes (c : ascii) (s : string) : bool :=
  match s with
  | EmptyString => false
  | String a s' => Ascii.eqb a c || includes c s'
  end.

(** [s.split(c)] for a one-character separator: every occurrence splits. *)
Fixpoint split (c : ascii) (s : string) : list string :=
  match s with
  | EmptyString => [EmptyString]
  | String a s' =>
      if Ascii.eqb a c then EmptyString :: split c s'
      else match split c s' with
           | piece :: pieces => String a piece :: pieces
           | [] => [String a EmptyString]
           end
  end.

(** A template hole filled with an array element that may be missing. *)
Definition interpolate (v : option string) : string :=
  match v with Some s => s | None => "undefined" end.

(** [xs.join(sep)]. *)
Definition join (sep : string) (xs : list string) : string :=
  String.concat sep xs.

(** [xs.sort()]: ascending by code units; the result of sorting by a
    total order does not depend on the algorithm. *)
Definition sort (xs : list string) : list string :=
  merge_sort String.le xs.

Fixpoint mapChars (f : ascii -> ascii) (s : string) : string :=
  match s with
  | EmptyString => EmptyString
  | String a s' => String (f a) (mapChars f s')
  end.

(** What the regular-expression dot refuses among the code units a
    string holds here, 0 to 255: the line feed and the carriage return.
    Its two other line terminators, U+2028 and U+2029, are code units
    above 255 and occur in no string of this development. *)
Definition isLineTerminator (c : ascii) : bool :=
  Ascii.eqb c LF || Ascii.eqb c CR.

(** [/^.*$/] without flags: no line terminator anywhere. *)
Fixpoint noLineTerminator (s : string) : bool :=
  match s with
  | EmptyString => true
  | String a s' => negb (isLineTerminator a) && noLineTerminator s'
  end.

(** The character class [[a-zA-Z@]]. *)
Definition isLetterOrAt (c : ascii) : bool :=
  let n := nat_of_ascii c in
  ((97 <=? n) && (n <=? 122) || (65 <=? n) && (n <=? 90) || (n =? 64))%nat.

Definition headIs (p : ascii -> bool) (s : string) : bool :=
  match s with
  | String a _ => p a
  | EmptyString => false
  end.

(** The replacement text of [String.prototype.replace] for a string
    search value: [$$], [$&], [$`] and [$'] are substitution patterns;
    there are no captures, so every other [$] stands for itself. *)
Fixpoint getSubstitution (matched before after repl : string) : string :=
  match repl with
  | EmptyString => EmptyString
  | String a rest =>
      if Ascii.eqb a "$" then
        match rest with
        | String c rest' =>
            if Ascii.eqb c "$" then
              "$" +:+ getSubstitution matched before after rest'
            else if Ascii.eqb c "&" then
              matched +:+ getSubstitution matched before after rest'
            else if Ascii.eqb c "`" then
              before +:+ getSubstitution matched before after rest'
            else if Ascii.eqb c "'" then
              after +:+ getSubstitution matched before after rest'
            else String a (getSubstitution matched before after rest)
        | EmptyString => String a EmptyString
        end
      else String a (getSubstitution matched before after rest)
  end.

(** Position of the first occurrence of [needle] in [s]. *)
Fixpoint search (needle s : string) : option nat :=
  if startsWith needle s then Some 0
  else match s with
       | EmptyString => None
       | String _ s' => S <$> search needle s'
       end.

(** [s.replace(needle, repl)] for a string [needle]: first occurrence. *)
Definition replace (needle repl s : string) : string :=
  match search needle s with
  | None => s
  | Some i =>
      let before := take i s in
      let after := drop (i + String.length needle) s in
      before +:+ getSubstitution needle before after repl +:+ after
  end.

(** Replacing a final star, with the slash before it, by nothing: the
    expression with an optional slash, a star and the end anchor. *)
Fixpoint stripTrailingStar (s : string) : string :=
  match s with
  | EmptyString => EmptyString
  | String a s' =>
      if String.eqb s "/*" || String.eqb s "*" then EmptyString
      else String a (stripTrailingStar s')
  end.

(** Cutting at the first star (with the slash before it) that no line
    terminator follows: the expression with an optional slash, a star,
    any run of dots-as-wildcards and the end anchor. *)
Fixpoint stripFromStar (s : string) : string :=
  match s with
  | EmptyString => EmptyString
  | String a s' =>
      if (startsWith "/*" s && noLineTerminator (drop 2 s))
         || (Ascii.eqb a "*" && noLineTerminator s')
      then EmptyString
      else String a (stripFromStar s')
  end.

(** Removing the extension: the expression with a dot, one or more
    characters other than a dot and the end anchor, which cuts at the
    last dot unless that dot ends [s]. *)
Definition stripExtension (s : string) : string :=
  match lastIndexOf "." s with
  | Some i => if (S i <? String.length s)%nat then take i s else s
  | None => s
  end.

End JS.

(** ** The digest behind [crypto.createHash('md5')]

    MD5 as in RFC 1321 over 32-bit words held in [Z], the wrap-around
    written out. *)

Module MD5.
Local Open Scope Z_scope.

Definition wrap32 (x : Z) : Z := x mod 2 ^ 32.
Definition add32 (x y : Z) : Z := wrap32 (x + y).
Definition not32 (x : Z) : Z := Z.lxor x 0xffffffff.
Definition rotl32 (x c : Z) : Z :=
  Z.lor (wrap32 (Z.shiftl x c)) (Z.shiftr x (32 - c)).

Definition shifts : list Z :=
  [7; 12; 17; 22; 7; 12; 17; 22; 7; 12; 17; 22; 7; 12; 17; 22;
   5; 9; 14; 20; 5; 9; 14; 20; 5; 9; 14; 20; 5; 9; 14; 20;
   4; 11; 16; 23; 4; 11; 16; 23; 4; 11; 16; 23; 4; 11; 16; 23;
   6; 10; 15; 21; 6; 10; 15; 21; 6; 10; 15; 21; 6; 10; 15; 21].

Definition sines : list Z :=
  [0xd76aa478; 0xe8c7b756; 0x242070db; 0xc1bdceee;
   0xf57c0faf; 0x4787c62a; 0xa8304613; 0xfd469501;
   0x698098d8; 0x8b44f7af; 0xffff5bb1; 0x895cd7be;
   0x6b901122; 0xfd987193; 0xa679438e; 0x49b40821;
   0xf61e2562; 0xc040b340; 0x265e5a51; 0xe9b6c7aa;
   0xd62f105d; 0x02441453; 0xd8a1e681; 0xe7d3fbc8;
   0x21e1cde6; 0xc33707d6; 0xf4d50d87; 0x455a14ed;
   0xa9e3e905; 0xfcefa3f8; 0x676f02d9; 0x8d2a4c8a;
   0xfffa3942; 0x8771f681; 0x6d9d6122; 0xfde5380c;
   0xa4beea44; 0x4bdecfa9; 0xf6bb4b60; 0xbebfbc70;
   0x289b7ec6; 0xeaa127fa; 0xd4ef3085; 0x04881d05;
   0xd9d4d039; 0xe6db99e5; 0x1fa27cf8; 0xc4ac5665;
   0xf4292244; 0x432aff97; 0xab9423a7; 0xfc93a039;
   0x655b59c3; 0x8f0ccc92; 0xffeff47d; 0x85845dd1;
   0x6fa87e4f; 0xfe2ce6e0; 0xa3014314; 0x4e0811a1;
   0xf7537e82; 0xbd3af235; 0x2ad7d2bb; 0xeb86d391].

(** UTF-8 bytes of a string of code units below 256. *)
Fixpoint utf8 (s : string) : list Z :=
  match s with
  | EmptyString => []
  | String a s' =>
      let c := Z.of_nat (nat_of_ascii a) in
      if c <? 128 then c :: utf8 s'
      else Z.lor 0xc0 (Z.shiftr c 6) :: Z.lor 0x80 (Z.land c 0x3f) :: utf8 s'
  end.

(** The [n] low bytes of [x], least significant first. *)
Fixpoint bytesLE (n : nat) (x : Z) : list Z :=
  match n with
  | O => []
  | S n' => Z.land x 0xff :: bytesLE n' (Z.shiftr x 8)
  end.

Fixpoint wordLE (bs : list Z) : Z :=
  match bs with
  | [] => 0
  | b :: bs' => b + 256 * wordLE bs'
  end.

(** The message, a one bit, zeros up to 56 modulo 64, the bit length. *)
Definition pad (msg : list Z) : list Z :=
  let len := Z.of_nat (List.length msg) in
  let zeros := Z.to_nat ((55 - len) mod 64) in
  msg ++ [0x80] ++ replicate zeros 0 ++ bytesLE 8 ((8 * len) mod 2 ^ 64).

(** The first [count] groups of [size] elements. *)
Fixpoint groups {A} (size count : nat) (l : list A) : list (list A) :=
  match count with
  | O => []
  | S count' => firstn size l :: groups size count' (skipn size l)
  end.

Record Regs := { rA : Z; rB : Z; rC : Z; rD : Z }.

Definition initial : Regs :=
  {| rA := 0x67452301; rB := 0xefcdab89; rC := 0x98badcfe; rD := 0x10325476 |}.

Definition round (M : list Z) (r : Regs) (i : nat) : Regs :=
  let '(Build_Regs A B C D) := r in
  let iz := Z.of_nat i in
  let '(F, g) :=
    if iz <? 16 then (Z.lor (Z.land B C) (Z.land (not32 B) D), iz)
    else if iz <? 32 then
      (Z.lor (Z.land D B) (Z.land (not32 D) C), (5 * iz + 1) mod 16)
    else if iz <? 48 then (Z.lxor (Z.lxor B C) D, (3 * iz + 5) mod 16)
    else (Z.lxor C (Z.lor B (not32 D)), (7 * iz) mod 16) in
  let F' := add32 (add32 (add32 F A) (sines !!! i)) (M !!! Z.to_nat g) in
  {| rA := D; rD := C; rC := B; rB := add32 B (rotl32 F' (shifts !!! i)) |}.

Definition block (r : Regs) (chunk : list Z) : Regs :=
  let M := wordLE <$> groups 4 16 chunk in
  let r' := foldl (round M) r (seq 0 64) in
  {| rA := add32 (rA r) (rA r'); rB := add32 (rB r) (rB r');
     rC := add32 (rC r) (rC r'); rD := add32 (rD r) (rD r') |}.

Definition digest (msg : list Z) : list Z :=
  let padded := pad msg in
  let r := foldl block initial (groups 64 (List.length padded / 64) padded) in
  bytesLE 4 (rA r) ++ bytesLE 4 (rB r) ++ bytesLE 4 (rC r) ++ bytesLE 4 (rD r).

Definition hexDigit (d : Z) : ascii :=
  ascii_of_nat (Z.to_nat (if d <? 10 then 48 + d else 87 + d)).

Fixpoint hex (bs : list Z) : string :=
  match bs with
  | [] => EmptyString
  | b :: bs' =>
      String (hexDigit (Z.shiftr b 4)) (String (hexDigit (Z.land b 0xf)) (hex bs'))
  end.

(** [crypto.createHash('md5').update(s).digest('hex')]. *)
Definition hexdigest (s : string) : string := hex (digest (utf8 s)).

End MD5.

(** ** [node:path], POSIX flavour

    The functions of Node's [path.posix] that the plugin calls, written
    over the slash-separated segments of a path. *)

Module Path.

Definition segments (p : string) : list string := JS.split "/" p.

Definition nonEmpty (s : string) : bool := negb (String.eqb s EmptyString).

(** One segment of [normalizeString]; [res] holds the segments kept so
    far, the last one first. *)
Definition normalizeStep (allowAboveRoot : bool) (res : list string)
    (seg : string) : list string :=
  if String.eqb seg EmptyString || String.eqb seg "." then res
  else if String.eqb seg ".." then
    match res with
    | [] => if allowAboveRoot then [".."] else []
    | last :: res' =>
        if String.eqb last ".."
        then (if allowAboveRoot then ".." :: res else res)
        else res'
    end
  else seg :: res.

Definition normalizeSegments (allowAboveRoot : bool) (segs : list string)
    : list string :=
  rev (foldl (normalizeStep allowAboveRoot) [] segs).

Definition normalizeString (path : string) (allowAboveRoot : bool) : string :=
  JS.join "/" (normalizeSegments allowAboveRoot (segments path)).

Definition isAbsolute (p : string) : bool := JS.startsWith "/" p.

(** [path.normalize]. *)
Definition normalize (path : string) : string :=
  if String.eqb path EmptyString then "."
  else
    let trailingSeparator := JS.endsWith "/" path in
    let p := normalizeString path (negb (isAbsolute path)) in
    if String.eqb p EmptyString then
      if isAbsolute path then "/"
      else if trailingSeparator then "./" else "."
    else
      let p' := if trailingSeparator then p +:+ "/" else p in
      if isAbsolute path then "/" +:+ p' else p'.

(** [path.join(...args)]. *)
Definition join (args : list string) : string :=
  match filter (fun a => nonEmpty a = true) args with
  | [] => "."
  | parts => normalize (JS.join "/" parts)
  end.

(** The loop of [path.resolve]: arguments from the right, then the
    working directory, until an absolute one has been prepended. *)
Fixpoint resolveLoop (pathsFromRight : list string) (resolvedPath : string)
    : string * bool :=
  match pathsFromRight with
  | [] => (resolvedPath, false)
  | path :: rest =>
      if String.eqb path EmptyString then resolveLoop rest resolvedPath
      else
        let resolvedPath' := path +:+ "/" +:+ resolvedPath in
        if isAbsolute path then (resolvedPath', true)
        else resolveLoop rest resolvedPath'
  end.

(** [path.resolve(...args)] in working directory [cwd]. *)
Definition resolve (cwd : string) (args : list string) : string :=
  let '(resolvedPath, resolvedAbsolute) :=
    resolveLoop (rev args ++ [cwd]) EmptyString in
  let p := normalizeString resolvedPath (negb resolvedAbsolute) in
  if resolvedAbsolute then "/" +:+ p
  else if String.eqb p EmptyString then "." else p.

Definition isSlash (c : ascii) : bool := Ascii.eqb c "/".

Fixpoint dropWhile (p : ascii -> bool) (cs : list ascii) : list ascii :=
  match cs with
  | c :: cs' => if p c then dropWhile p cs' else cs
  | [] => []
  end.

Fixpoint takeWhile (p : ascii -> bool) (cs : list ascii) : list ascii :=
  match cs with
  | c :: cs' => if p c then c :: takeWhile p cs' else []
  | [] => []
  end.

(** [path.dirname]: scanning from the right down to index 1, skip the
    trailing slashes and the last segment; the slash found there ends
    the directory. *)
Definition dirname (path : string) : string :=
  match path with
  | EmptyString => "."
  | String first body =>
      let hasRoot := isSlash first in
      let scanned :=
        dropWhile (fun c => negb (isSlash c))
          (dropWhile isSlash (rev (list_ascii_of_string body))) in
      match scanned with
      | [] => if hasRoot then "/" else "."
      | _ :: before =>
          if hasRoot && (List.length before =? 0)%nat then "//"
          else String first (string_of_list_ascii (rev before))
      end
  end.

(** [path.basename] without a suffix. *)
Definition basename (path : string) : string :=
  string_of_list_ascii
    (rev (takeWhile (fun c => negb (isSlash c))
            (dropWhile isSlash (rev (list_ascii_of_string path))))).

Fixpoint stripCommon (xs ys : list string) : list string * list string :=
  match xs, ys with
  | x :: xs', y :: ys' =>
      if String.eqb x y then stripCommon xs' ys' else (xs, ys)
  | _, _ => (xs, ys)
  end.

(** [path.relative(from, to)] in working directory [cwd]: one [..] for
    every segment of the resolved [from] below the common directory,
    then the segments of the resolved [to] below it. *)
Definition relative (cwd from to : string) : string :=
  if String.eqb from to then EmptyString
  else
    let from' := resolve cwd [from] in
    let to' := resolve cwd [to] in
    if String.eqb from' to' then EmptyString
    else
      let fromSegs := filter (fun a => nonEmpty a = true) (segments from') in
      let toSegs := filter (fun a => nonEmpty a = true) (segments to') in
      let '(up, down) := stripCommon fromSegs toSegs in
      JS.join "/" (replicate (List.length up) ".." ++ down).

End Path.

(** ** The source, function by function *)

Definition DC_PREFIX : string := "dc:".

(** [md5]: the first 8 characters of the hexadecimal digest. *)
Definition md5 (str : string) : string := JS.slice 0 8 (MD5.hexdigest str).

(** [normalizePath]: backslashes become slashes. *)
Definition normalizePath (p : string) : string :=
  JS.mapChars (fun c => if Ascii.eqb c "\" then "/"%char else c) p.

Definition globChars : list ascii := ["*"; "?"; "["; "{"]%char.

(** [getGlobBase]. *)
Definition getGlobBase (pattern : string) : string :=
  let firstGlobIndex :=
    foldl (fun firstGlobIndex char =>
             match JS.indexOf char pattern with
             | Some index =>
                 if (index <? firstGlobIndex)%nat then index else firstGlobIndex
             | None => firstGlobIndex
             end)
          (String.length pattern) globChars in
  let base := JS.slice 0 firstGlobIndex pattern in
  match JS.lastIndexOf "/" base with
  | Some lastSlash => JS.slice 0 lastSlash base
  | None => "."
  end.

Record ParsedDcImport := {
  clientDirective : option string;
  pattern : string
}.

(** The second group of [parseDcImport]'s expression: up to two dots and a
    slash, or a letter or an at sign, and then anything but a line
    terminator up to the end of the string. *)
Definition pathPart (rest : string) : bool :=
  (JS.startsWith "/" rest || JS.startsWith "./" rest
   || JS.startsWith "../" rest || JS.headIs JS.isLetterOrAt rest)
  && JS.noLineTerminator rest.

(** [withoutPrefix.match(...)]: the lazy first group grows one character
    at a time, never over a line terminator, until a colon and the second
    group match up to the end of the string. *)
Fixpoint pathMatch (s : string) : option (string * string) :=
  match s with
  | EmptyString => None
  | String c rest =>
      if Ascii.eqb c ":" && pathPart rest then Some (EmptyString, rest)
      else if JS.isLineTerminator c then None
      else match pathMatch rest with
           | Some (clientPart, pattern) => Some (String c clientPart, pattern)
           | None => None
           end
  end.

(** [parseDcImport]. *)
Definition parseDcImport (source defaultClientDirective : string) : ParsedDcImport :=
  let withoutPrefix := JS.sliceFrom (String.length DC_PREFIX) source in
  match pathMatch withoutPrefix with
  | Some (clientPart, pattern) =>
      if String.eqb clientPart EmptyString then
        {| clientDirective := None; pattern := pattern |}
      else if JS.includes "=" clientPart then
        let parts := JS.split "=" clientPart in
        let name := parts !! 0%nat in
        let value := parts !! 1%nat in
        {| clientDirective :=
             Some ("client:" +:+ JS.interpolate name +:+ "=" +:+ JS.dq
                   +:+ JS.interpolate value +:+ JS.dq);
           pattern := pattern |}
      else
        {| clientDirective := Some ("client:" +:+ clientPart); pattern := pattern |}
  | None =>
      {| clientDirective := Some ("client:" +:+ defaultClientDirective);
         pattern := withoutPrefix |}
  end.

(** ** Component descriptors and the synthesizer *)

Record Component := {
  importName : string;
  compName : string;
  filePath : string;
  isAstro : bool
}.

(** JavaScript truthiness of a [string | null]. *)
Definition truthy (v : option string) : bool :=
  match v with
  | Some s => Path.nonEmpty s
  | None => false
  end.

(** ** Alias tables *)

(** The [find] of a build-tool alias: a string, or a regular expression,
    of which the resolver reads the source text. *)
Inductive AliasFind :=
  | FindString (s : string)
  | FindRegExp (source : string).

Record Alias := { find : AliasFind; replacement : string }.

(** The resolved build-tool configuration: [root] is empty when absent,
    [alias] is [resolve.alias] as an ordered list. *)
Record ViteConfig := { root : string; alias : option (list Alias) }.

(** What [getTsconfig] finds: the file's path and, of its compiler
    options, [baseUrl] and the entries of [paths] in iteration order. *)
Record TsConfigResult := {
  tsPath : string;
  baseUrl : option string;
  paths : option (list (string * list string))
}.

Definition findText (a : Alias) : string :=
  match find a with
  | FindString s => s
  | FindRegExp source => source
  end.

(** The loop of [resolveAlias] over the build-tool aliases. *)
Fixpoint viteAliasLoop (aliasPath : string) (aliasArray : list Alias)
    : option string :=
  match aliasArray with
  | [] => None
  | alias :: rest =>
      let find := findText alias in
      if negb (Path.nonEmpty find) then viteAliasLoop aliasPath rest
      else if JS.startsWith find aliasPath
      then Some (JS.replace find (replacement alias) aliasPath)
      else viteAliasLoop aliasPath rest
  end.

(** ** Effects *)

Inductive Event :=
  | ConsoleWarn (message : string)
  | LoggerDebug (message : string)
  | Synthesize (virtualFilePath : string).

(** The plugin's closure: the resolved configuration and the cache of
    generated code, with the trace of what the plugin has done so far
    (most recent event first). *)
Record State := {
  viteConfig : option ViteConfig;
  projectRoot : string;
  codeCache : gmap string string;
  trace : list Event
}.

(** The options of [createDynamicComponentVitePlugin]. *)
Record Options := {
  optDefaultClientDirective : option string;
  optLogger : bool;
  optSrcDir : option string
}.

(** What [resolveId] has worked out when it reaches the glob. *)
Record Resolved := {
  rClientDirective : option string;
  rPattern : string;
  rIsPathAlias : bool;
  rResolvedPattern : string;
  rBaseDir : string
}.

(** [resolveId] up to the glob: not our prefix, a warning and a decline,
    or a pattern to match. *)
Inductive Request :=
  | NotHandled
  | Declined (warning : string)
  | Ready (r : Resolved).

Definition warn (message : string) (st : State) : State :=
  {| viteConfig := viteConfig st; projectRoot := projectRoot st;
     codeCache := codeCache st; trace := ConsoleWarn message :: trace st |}.

Section Plugin.

(** The environment: [process.cwd()], [fast-glob] with the options the
    plugin passes, and [getTsconfig]. *)
Variable cwd : string.
Variable fg : string -> list string.
Variable getTsconfig : string -> option TsConfigResult.

(** [generateVirtualAstroComponent]: the import statement of one
    component. *)
Definition importStatement (pattern baseDir : string) (isPathAlias : bool)
    (srcDirAbsolute : string) (c : Component) : string :=
  let importPath :=
    if isPathAlias then
      let patternDir := JS.stripFromStar pattern in
      let relativePath := normalizePath (Path.relative cwd baseDir (filePath c)) in
      patternDir +:+ "/" +:+ relativePath
    else
      let relativePath :=
        normalizePath (Path.relative cwd srcDirAbsolute (filePath c)) in
      "../" +:+ relativePath in
  "import " +:+ importName c +:+ " from " +:+ JS.dq +:+ importPath +:+ JS.dq +:+ ";".

(** [generateVirtualAstroComponent]: the attribute of one component. *)
Definition clientAttr (clientDirective : option string) (c : Component) : string :=
  if isAstro c || negb (truthy clientDirective) then EmptyString
  else " " +:+ JS.interpolate clientDirective.

(** [generateVirtualAstroComponent]: the conditional render expression
    of one component. *)
Definition conditionalRender (clientDirective : option string) (c : Component)
    : string :=
  "{ Astro.props.comp === " +:+ JS.dq +:+ compName c +:+ JS.dq +:+ " && <"
  +:+ importName c +:+ clientAttr clientDirective c +:+ " {...rest} /> }".

(** [generateVirtualAstroComponent]. *)
Definition generateVirtualAstroComponent (pattern baseDir : string)
    (clientDirective : option string) (components : list Component)
    (isPathAlias : bool) (srcDirAbsolute : string) : string :=
  let imports :=
    JS.join JS.nl
      (importStatement pattern baseDir isPathAlias srcDirAbsolute <$> components) in
  let compTypes :=
    JS.join " | " ((fun c => JS.dq +:+ compName c +:+ JS.dq) <$> components) in
  let conditionalRenders :=
    JS.join JS.nl (conditionalRender clientDirective <$> components) in
  "---" +:+ JS.nl
  +:+ imports +:+ JS.nl
  +:+ JS.nl
  +:+ "interface Props {" +:+ JS.nl
  +:+ "    comp: " +:+ compTypes +:+ ";" +:+ JS.nl
  +:+ "    [key: string]: any;" +:+ JS.nl
  +:+ "}" +:+ JS.nl
  +:+ JS.nl
  +:+ "const { comp, ...rest } = Astro.props;" +:+ JS.nl
  +:+ "---" +:+ JS.nl
  +:+ JS.nl
  +:+ conditionalRenders +:+ JS.nl.

(** The loop of [resolveAlias] over the entries of [paths]. *)
Fixpoint tsPathsLoop (aliasPath baseUrlResolved : string)
    (entries : list (string * list string)) : option string :=
  match entries with
  | [] => None
  | (pattern, mappings) :: rest =>
      let prefix := JS.stripTrailingStar pattern in
      if JS.startsWith prefix aliasPath then
        match mappings !! 0%nat with
        | Some mapping =>
            if negb (Path.nonEmpty mapping)
            then tsPathsLoop aliasPath baseUrlResolved rest
            else
              let suffix := JS.sliceFrom (String.length prefix) aliasPath in
              let resolvedPath := JS.stripTrailingStar mapping +:+ suffix in
              Some (Path.resolve cwd [baseUrlResolved; resolvedPath])
        | None => tsPathsLoop aliasPath baseUrlResolved rest
        end
      else tsPathsLoop aliasPath baseUrlResolved rest
  end.

(** The second half of [resolveAlias]: the paths of the tsconfig. *)
Definition tsconfigAlias (aliasPath root : string) : option string :=
  match getTsconfig root with
  | Some tsconfig =>
      match paths tsconfig with
      | Some entries =>
          let baseUrl :=
            if truthy (baseUrl tsconfig)
            then JS.interpolate (baseUrl tsconfig) else "." in
          let baseUrlResolved :=
            Path.resolve cwd [Path.dirname (tsPath tsconfig); baseUrl] in
          tsPathsLoop aliasPath baseUrlResolved entries
      | None => None
      end
  | None => None
  end.

(** [resolveAlias]; its third argument is the directory the tsconfig
    is looked up from. *)
Definition resolveAlias (aliasPath : string) (viteConfig : option ViteConfig)
    (root : string) : option string :=
  match
    match viteConfig ≫= alias with
    | Some aliasArray => viteAliasLoop aliasPath aliasArray
    | None => None
    end
  with
  | Some resolved => Some resolved
  | None => tsconfigAlias aliasPath root
  end.

(** The plugin created from [options]. *)
Variable options : Options.

Definition defaultClientDirective : string :=
  match optDefaultClientDirective options with
  | Some d => d
  | None => "load"
  end.

Definition srcDir : string :=
  if truthy (optSrcDir options) then JS.interpolate (optSrcDir options)
  else "src".

Definition initialState : State :=
  {| viteConfig := None; projectRoot := cwd; codeCache := ∅; trace := [] |}.

(** [configResolved]. *)
Definition configResolved (config : ViteConfig) (st : State) : State :=
  {| viteConfig := Some config;
     projectRoot := if Path.nonEmpty (root config) then root config else cwd;
     codeCache := codeCache st; trace := trace st |}.

(** [resolveId] before the glob is awaited. *)
Definition resolveRequest (source : string) (importer : option string)
    (st : State) : Request :=
  if negb (JS.startsWith DC_PREFIX source) then NotHandled
  else if negb (truthy importer) then
    Declined ("[dynamic-component] Cannot resolve " +:+ JS.dq +:+ source
              +:+ JS.dq +:+ " without importer")
  else
    let importer := JS.interpolate importer in
    let parsed := parseDcImport source defaultClientDirective in
    let clientDirective := clientDirective parsed in
    let pattern := pattern parsed in
    let isPathAlias :=
      negb (JS.startsWith "./" pattern) && negb (JS.startsWith "../" pattern)
      && negb (JS.startsWith "/" pattern) in
    if isPathAlias then
      let patternBase := getGlobBase pattern in
      let resolvedBase := resolveAlias patternBase (viteConfig st) (projectRoot st) in
      if negb (truthy resolvedBase) then
        Declined ("[dynamic-component] Cannot resolve path alias " +:+ JS.dq
                  +:+ patternBase +:+ JS.dq +:+ ".")
      else
        let baseDir := JS.interpolate resolvedBase in
        let globPart := JS.sliceFrom (String.length patternBase) pattern in
        Ready {| rClientDirective := clientDirective; rPattern := pattern;
                 rIsPathAlias := true;
                 rResolvedPattern := normalizePath (baseDir +:+ globPart);
                 rBaseDir := baseDir |}
    else
      let importerDir := Path.dirname importer in
      let resolvedPattern := normalizePath (Path.join [importerDir; pattern]) in
      let patternBase := getGlobBase pattern in
      Ready {| rClientDirective := clientDirective; rPattern := pattern;
               rIsPathAlias := false;
               rResolvedPattern := resolvedPattern;
               rBaseDir := Path.join [importerDir; patternBase] |}.

(** The component list [resolveId] builds from the matched files. *)
Definition componentOf (baseDir filePath : string) : Component :=
  let relativePath := normalizePath (Path.relative cwd baseDir filePath) in
  {| importName := "Com_" +:+ md5 relativePath;
     compName := JS.stripExtension relativePath;
     filePath := filePath;
     isAstro := JS.endsWith ".astro" filePath |}.

(** The hash [resolveId] names the virtual file with. *)
Definition filesHash (root : string) (files : list string) : string :=
  let srcDirAbsolute := Path.resolve cwd [root; srcDir] in
  let relativePaths :=
    JS.sort ((fun f => normalizePath (Path.relative cwd srcDirAbsolute f)) <$> files) in
  let pathsString := JS.join "," relativePaths in
  md5 pathsString.

(** [resolveId] once the glob has answered with [files]. *)
Definition resolveFiles (r : Resolved) (files : list string) (st : State)
    : option string * State :=
  if (List.length files =? 0)%nat then
    (None, warn ("[dynamic-component] No files matched for pattern " +:+ JS.dq
                 +:+ rPattern r +:+ JS.dq) st)
  else
    let srcDirAbsolute := Path.resolve cwd [projectRoot st; srcDir] in
    let hash := filesHash (projectRoot st) files in
    let components := componentOf (rBaseDir r) <$> files in
    let virtualFilePath :=
      Path.resolve cwd [projectRoot st; srcDir; "_generate_";
                        "_virtual_dc_" +:+ hash +:+ ".astro"] in
    match codeCache st !! virtualFilePath with
    | Some _ => (Some virtualFilePath, st)
    | None =>
        let code :=
          generateVirtualAstroComponent (rPattern r) (rBaseDir r)
            (rClientDirective r) components (rIsPathAlias r) srcDirAbsolute in
        let debug :=
          if optLogger options then
            [LoggerDebug ("[dynamic-component] Generated virtual component at "
                          +:+ virtualFilePath +:+ " with "
                          +:+ pretty (List.length components) +:+ " components")]
          else [] in
        (Some virtualFilePath,
         {| viteConfig := viteConfig st; projectRoot := projectRoot st;
            codeCache := <[virtualFilePath := code]> (codeCache st);
            trace := debug ++ Synthesize virtualFilePath :: trace st |})
    end.

(** [resolveId]. *)
Definition resolveId (source : string) (importer : option string) (st : State)
    : option string * State :=
  match resolveRequest source importer st with
  | NotHandled => (None, st)
  | Declined warning => (None, warn warning st)
  | Ready r => resolveFiles r (fg (rResolvedPattern r)) st
  end.

(** [load]. *)
Definition load (id : string) (st : State) : option string * State :=
  let fileName := Path.basename id in
  if negb (JS.startsWith "_virtual_dc_" fileName)
     || negb (JS.endsWith ".astro" fileName)
  then (None, st)
  else
    let code := codeCache st !! id in
    if truthy code then (code, st)
    else (None, warn ("[dynamic-component] Code not found in cache for " +:+ id) st).

(** The calls the host makes on the plugin. *)
Inductive Call :=
  | CallConfigResolved (config : ViteConfig)
  | CallResolveId (source : string) (importer : option string)
  | CallLoad (id : string).

Definition call (st : State) (c : Call) : State :=
  match c with
  | CallConfigResolved config => configResolved config st
  | CallResolveId source importer => (resolveId source importer st).2
  | CallLoad id => (load id st).2
  end.

(** The state after a sequence of calls on a fresh plugin. *)
Definition run (calls : list Call) : State := foldl call initialState calls.

End Plugin.

(** * Notions the properties are stated with *)

(** ** The glob base *)

(** Index of the first character that satisfies [p], the length if none. *)
Fixpoint firstIndex (p : ascii -> bool) (s : string) : nat :=
  match s with
  | EmptyString => 0
  | String a s' => if p a then 0 else S (firstIndex p s')
  end.

(** One of the glob metacharacters: star, question mark, opening bracket
    or opening brace. *)
Definition isGlobChar (c : ascii) : bool :=
  Ascii.eqb c "*" || Ascii.eqb c "?" || Ascii.eqb c "[" || Ascii.eqb c "{".

(** No character of [s] satisfies [p]. *)
Fixpoint noneIs (p : ascii -> bool) (s : string) : bool :=
  match s with
  | EmptyString => true
  | String a s' => negb (p a) && noneIs p s'
  end.

(** ** Alias lookup *)

(** The build-tool aliases and the path mappings [resolveAlias] reads. *)
Definition aliasesOf (viteConfig : option ViteConfig) : list Alias :=
  default [] (viteConfig ≫= alias).

Definition pathsOf (getTsconfig : string -> option TsConfigResult)
    (root : string) : list (string * list string) :=
  default [] (getTsconfig root ≫= paths).

(** The base directory of a path-mapping file. *)
Definition baseUrlResolvedOf (cwd : string) (tsconfig : TsConfigResult) : string :=
  Path.resolve cwd
    [Path.dirname (tsPath tsconfig);
     if truthy (baseUrl tsconfig) then JS.interpolate (baseUrl tsconfig) else "."].

(** A build-tool alias that can win: its [find] is not empty and is a
    prefix of the path. *)
Definition viteQualifies (aliasPath : string) (a : Alias) : bool :=
  Path.nonEmpty (findText a) && JS.startsWith (findText a) aliasPath.

(** The first replacement target of a path mapping, when it has one that
    is not empty. *)
Definition firstTarget (e : string * list string) : option string :=
  match e.2 !! 0%nat with
  | Some mapping => if Path.nonEmpty mapping then Some mapping else None
  | None => None
  end.

(** A path mapping that can win: its pattern without the final star is a
    prefix of the path and it has a first target. *)
Definition tsQualifies (aliasPath : string) (e : string * list string) : bool :=
  JS.startsWith (JS.stripTrailingStar e.1) aliasPath
  && match firstTarget e with Some _ => true | None => false end.

(** What a winning path mapping resolves to. *)
Definition tsResolved (cwd aliasPath : string) (tsconfig : TsConfigResult)
    (e : string * list string) : string :=
  Path.resolve cwd
    [baseUrlResolvedOf cwd tsconfig;
     JS.stripTrailingStar (default EmptyString (firstTarget e))
     +:+ JS.drop (String.length (JS.stripTrailingStar e.1)) aliasPath].

(** What the specification says of the null result: no find of the first
    tier and no stripped pattern of the second is a prefix of the path. *)
Definition nullExactlyWhenNoPrefix : Prop :=
  forall (cwd : string) (getTsconfig : string -> option TsConfigResult)
         (aliasPath : string) (viteConfig : option ViteConfig) (root : string),
    resolveAlias cwd getTsconfig aliasPath viteConfig root = None
    <-> Forall (fun a => JS.startsWith (findText a) aliasPath = false)
               (aliasesOf viteConfig)
        /\ Forall (fun e => JS.startsWith (JS.stripTrailingStar e.1) aliasPath = false)
                  (pathsOf getTsconfig root).

(** ** The boundary between directive and pattern *)

(** What may follow the colon that ends the directive segment: a
    relative-path marker, an absolute-path marker, a letter or an at
    sign. *)
Definition startsPattern (rest : string) : bool :=
  JS.startsWith "./" rest || JS.startsWith "../" rest
  || JS.startsWith "/" rest || JS.headIs JS.isLetterOrAt rest.

(** [remainder] has a colon between [segment] and [pat], and [pat] starts
    as a pattern may. *)
Definition boundary (segment pat remainder : string) : Prop :=
  remainder = segment +:+ ":" +:+ pat /\ startsPattern pat = true.

(** The first such colon of [remainder]. *)
Definition firstBoundary (segment pat remainder : string) : Prop :=
  boundary segment pat remainder
  /\ forall segment' pat',
       boundary segment' pat' remainder ->
       String.length segment <= String.length segment'.

Definition noBoundary (remainder : string) : Prop :=
  forall segment pat, ~ boundary segment pat remainder.

(** What the specification says of the parser on [source]. *)
Definition parsesAtFirstBoundary (source default : string) : Prop :=
  let remainder := JS.drop (String.length DC_PREFIX) source in
  let parsed := parseDcImport source default in
  (forall segment pat,
      firstBoundary segment pat remainder ->
      pattern parsed = pat
      /\ (segment = EmptyString -> clientDirective parsed = None)
      /\ (segment <> EmptyString -> JS.includes "=" segment = false ->
          clientDirective parsed = Some ("client:" +:+ segment)))
  /\ (noBoundary remainder ->
      pattern parsed = remainder
      /\ clientDirective parsed = Some ("client:" +:+ default)).

(** ** Resolutions and identities *)

(** The pattern of a specifier names an alias: it starts with neither
    [./] nor [../] nor [/]. *)
Definition isAliasPattern (pattern : string) : bool :=
  negb (JS.startsWith "./" pattern) && negb (JS.startsWith "../" pattern)
  && negb (JS.startsWith "/" pattern).

(** A module id whose file name is that of a generated virtual file. *)
Definition isVirtualId (id : string) : bool :=
  JS.startsWith "_virtual_dc_" (Path.basename id)
  && JS.endsWith ".astro" (Path.basename id).

(** A project used in the examples below: two importers under
    [/p/src/pages], a directory of components and no alias table. *)
Module Project.

Definition cwd : string := "/p".

Definition fg (resolvedPattern : string) : list string :=
  if String.eqb resolvedPattern "/p/src/pages/shared/*.jsx" then
    ["/p/src/pages/shared/Card.jsx"; "/p/src/pages/shared/Badge.jsx"]
  else if String.eqb resolvedPattern "/p/src/pages/buttons/*.*" then
    ["/p/src/pages/buttons/Button.vue"; "/p/src/pages/buttons/Button.jsx"]
  else [].

Definition getTsconfig (_ : string) : option TsConfigResult := None.

Definition options : Options :=
  {| optDefaultClientDirective := None; optLogger := false;
     optSrcDir := Some "/p/src/" |}.

Definition start : State := initialState cwd.

End Project.

(** The identity [resolveId] returns for the matched [files]. *)
Definition virtualFilePathOf (cwd : string) (options : Options)
    (root : string) (files : list string) : string :=
  Path.resolve cwd [root; srcDir options; "_generate_";
                    "_virtual_dc_" +:+ filesHash cwd options root files +:+ ".astro"].

(** Every call of the synthesizer for [id] that the trace records. *)
Definition synthesized (id : string) (events : list Event) : nat :=
  List.length (List.filter (fun e => match e with
                                     | Synthesize id' => String.eqb id id'
                                     | _ => false
                                     end) events).

(** What the specification says of two resolutions with the same files
    and different directives. *)
Definition distinctDirectivesDistinctIdentities : Prop :=
  forall (cwd : string) (fg : string -> list string)
         (getTsconfig : string -> option TsConfigResult) (options : Options)
         (source1 source2 : string) (importer1 importer2 : option string)
         (r1 r2 : Resolved) (id1 id2 : string) (st st1 st2 : State),
    resolveRequest cwd getTsconfig options source1 importer1 st = Ready r1 ->
    resolveRequest cwd getTsconfig options source2 importer2 st1 = Ready r2 ->
    JS.sort (fg (rResolvedPattern r1)) = JS.sort (fg (rResolvedPattern r2)) ->
    rClientDirective r1 <> rClientDirective r2 ->
    resolveId cwd fg getTsconfig options source1 importer1 st = (Some id1, st1) ->
    resolveId cwd fg getTsconfig options source2 importer2 st1 = (Some id2, st2) ->
    id1 <> id2.

(** The cache accounts for every call of the synthesizer exactly: an
    identity has been synthesized once if the cache holds it, and never
    otherwise. *)
Definition synthesizedOnceIfCached (st : State) : Prop :=
  forall id : string,
    synthesized id (trace st)
    = match codeCache st !! id with Some _ => 1 | None => 0 end.

(** ** Branches of a synthesized module *)

(** The conditional render expression of [c] fires when the selector
    [Astro.props.comp] is strictly equal to the literal in its guard, the
    component's [compName]. *)
Definition fires (comp : string) (c : Component) : bool :=
  String.eqb comp (compName c).

(** The branches of a synthesized module that fire for [comp]. *)
Definition firing (comp : string) (components : list Component) : list Component :=
  List.filter (fires comp) components.

(** What the specification says of display names: every matched file's
    name fires exactly one branch. *)
Definition everyNameFiresOneBranch : Prop :=
  forall (cwd baseDir : string) (files : list string) (file : string),
    NoDup files -> file ∈ files ->
    List.length (firing (compName (componentOf cwd baseDir file))
                   (componentOf cwd baseDir <$> files)) = 1.

(** The opening of the conditional render expression that the selector
    [comp] fires. *)
Definition guard (comp : string) : string :=
  "{ Astro.props.comp === " +:+ JS.dq +:+ comp +:+ JS.dq +:+ " && <".

(** The lines of a synthesized text that open with the guard of [comp]:
    the branches [comp] fires. *)
Definition firingLines (comp text : string) : list string :=
  List.filter (JS.startsWith (guard comp)) (JS.split JS.LF text).

(** The import statement and the render expression of [c] are one line
    each, and its display name holds no double quote. *)
Definition plainlyNamed (cwd pattern baseDir : string)
    (clientDirective : option string) (isPathAlias : bool)
    (srcDirAbsolute : string) (c : Component) : Prop :=
  JS.includes JS.LF
    (importStatement cwd pattern baseDir isPathAlias srcDirAbsolute c) = false
  /\ JS.includes JS.LF (conditionalRender clientDirective c) = false
  /\ JS.includes JS.DQ (compName c) = false.

(** ** Paths below a directory *)

(** A segment that [path.normalize] keeps as it is or climbs with:
    neither empty nor a single dot. *)
Definition realSegment (seg : string) : bool :=
  Path.nonEmpty seg && negb (String.eqb seg ".").


(** No segment of the path is [..]. *)
Definition noDotDot (p : string) : bool :=
  forallb (fun seg => negb (String.eqb seg "..")) (Path.segments p).





(** ** The integration *)

(** [dynamicComponentIntegration(options)] with its [astro:config:setup]
    hook run on a configuration whose [srcDir] is the file at
    [srcDirPath]: the messages given to [logger.info], in order, and the
    options of the plugin handed to [updateConfig]. *)
Definition dynamicComponentIntegration
    (defaultClientDirectiveOption : option string) (srcDirPath : string)
    : list string * Options :=
  let defaultClientDirective :=
    match defaultClientDirectiveOption with
    | Some d => d
    | None => "load"
    end in
  let infos :=
    "Dynamic component integration enabled"
    :: (if negb (String.eqb defaultClientDirective "load")
        then ["Default client directive: " +:+ defaultClientDirective]
        else []) in
  (infos,
   {| optDefaultClientDirective := Some defaultClientDirective;
      optLogger := true;
      optSrcDir := Some srcDirPath |}).

(** ** Shapes of generated names *)

(** A digit of a lower-case hexadecimal number. *)
Definition isHexDigit (c : ascii) : bool :=
  let n := nat_of_ascii c in
  ((48 <=? n) && (n <=? 57) || (97 <=? n) && (n <=? 102))%nat.

(** Every character of [s] satisfies [p]. *)
Fixpoint allAre (p : ascii -> bool) (s : string) : bool :=
  match s with
  | EmptyString => true
  | String a s' => p a && allAre p s'
  end.

(** ** The cache of a plugin *)

(** Every cached identity names a virtual file and its code is not
    empty. *)
Definition cacheSound (st : State) : Prop :=
  forall id code,
    codeCache st !! id = Some code ->
    isVirtualId id = true /\ truthy (Some code) = true.

(** The cache of [st'] holds whatever the cache of [st] holds. *)
Definition cacheKept (st st' : State) : Prop :=
  forall id code, codeCache st !! id = Some code -> codeCache st' !! id = Some code.

(** The segments [path.resolve] keeps of an absolute path. *)
Definition absoluteSegments (p : string) : list string :=
  Path.normalizeSegments false (Path.segments p).

(** An absolute path in the form [path.resolve] returns: a slash and the
    segments it keeps, joined by slashes. *)
Definition isResolved (p : string) : Prop :=
  p = "/" +:+ JS.join "/" (absoluteSegments p) /\ Path.isAbsolute p = true.

(** ** Events and resolved paths *)

(** An event other than a console warning. *)
Definition isQuiet (e : Event) : bool :=
  match e with
  | ConsoleWarn _ => false
  | _ => true
  end.

(** A name that [normalizeString] keeps as the segment it is. *)
Definition plainName (name : string) : Prop :=
  realSegment name = true /\ JS.includes "/" name = false
  /\ String.eqb name ".." = false.

(** The segments [path.resolve] has kept, the last one first, after the
    arguments [args], starting from [stack]: an absolute argument starts
    anew. *)
Definition resolveStack (stack : list string) (args : list string) : list string :=
  foldl (fun kept p =>
           foldl (Path.normalizeStep false)
             (if Path.isAbsolute p then [] else kept) (Path.segments p))
    stack args.

(** Every segment is a plain name. *)
Definition plainNames (segs : list string) : Prop := Forall plainName segs.

(** * Properties *)

(** ** The model against known values *)

(** The test suite of RFC 1321. *)
Example md5_rfc1321 :
  MD5.hexdigest EmptyString = "d41d8cd98f00b204e9800998ecf8427e"
  /\ MD5.hexdigest "a" = "0cc175b9c0f1b6a831c399e269772661"
  /\ MD5.hexdigest "abc" = "900150983cd24fb0d6963f7d28e17f72"
  /\ MD5.hexdigest "message digest" = "f96b697d7cb7938d525a2f31aaf161d0"
  /\ MD5.hexdigest "abcdefghijklmnopqrstuvwxyz" = "c3fcd3d76192e4007dfb496cca67e13b"
  /\ MD5.hexdigest
       "ABCDEFGHIJKLMNOPQRSTUVWXYZabcdefghijklmnopqrstuvwxyz0123456789"
     = "d174ab98d277d9f5a5611c2c9f419d9f"
  /\ MD5.hexdigest
       "12345678901234567890123456789012345678901234567890123456789012345678901234567890"
     = "57edf4a22be3c955ac49da2e2107b67a"
  /\ md5 "abc" = "90015098".
Proof. repeat apply conj; vm_compute; reflexivity. Qed.

(** [node:path] on the paths of a project. *)
Example path_posix :
  Path.dirname "/p/src/pages/a.astro" = "/p/src/pages"
  /\ Path.dirname "/a.astro" = "/"
  /\ Path.dirname "/a//b" = "/a/"
  /\ Path.dirname "a" = "."
  /\ Path.basename "/a/b.astro//" = "b.astro"
  /\ Path.normalize "a/../../b/" = "../b/"
  /\ Path.join ["/p/src/pages"; "./shared/*.jsx"] = "/p/src/pages/shared/*.jsx"
  /\ Path.join ["/p/src/pages"; "../shared/*.jsx"] = "/p/src/shared/*.jsx"
  /\ Path.join ["/"; "/x/*.vue"] = "/x/*.vue"
  /\ Path.resolve "/cwd" ["/p"; "/p/src/"; "_generate_"; "x.astro"]
     = "/p/src/_generate_/x.astro"
  /\ Path.resolve "/cwd" ["p"; "../src"] = "/cwd/src"
  /\ Path.relative "/" "/p/src" "/p/src/x/B.vue" = "x/B.vue"
  /\ Path.relative "/" "/a/b" "/a/c/d" = "../c/d"
  /\ Path.relative "/" "/a/b" "/" = "../..".
Proof. repeat apply conj; vm_compute; reflexivity. Qed.

(** The formats listed in the comment of [parseDcImport]. *)
Example parseDcImport_formats :
  parseDcImport "dc:load:./path/*.*" "load"
  = {| clientDirective := Some "client:load"; pattern := "./path/*.*" |}
  /\ parseDcImport "dc:idle:./path/*.*" "load"
     = {| clientDirective := Some "client:idle"; pattern := "./path/*.*" |}
  /\ parseDcImport "dc:visible:./path/*.*" "load"
     = {| clientDirective := Some "client:visible"; pattern := "./path/*.*" |}
  /\ parseDcImport "dc:only=vue:./path/*.vue" "load"
     = {| clientDirective := Some ("client:only=" +:+ JS.dq +:+ "vue" +:+ JS.dq);
          pattern := "./path/*.vue" |}
  /\ parseDcImport "dc::./path/*.astro" "load"
     = {| clientDirective := None; pattern := "./path/*.astro" |}
  /\ parseDcImport "dc:./path/*.*" "idle"
     = {| clientDirective := Some "client:idle"; pattern := "./path/*.*" |}
  /\ parseDcImport "dc:load:@/components/*.vue" "load"
     = {| clientDirective := Some "client:load"; pattern := "@/components/*.vue" |}.
Proof. repeat apply conj; reflexivity. Qed.

(** An alias pattern resolved through the path mappings of a tsconfig. *)
Example resolveRequest_alias :
  resolveRequest "/p"
    (fun _ => Some {| tsPath := "/p/tsconfig.json"; baseUrl := Some ".";
                      paths := Some [("@/*", ["src/*"])] |})
    Project.options "dc:load:@/components/*.vue" (Some "/p/src/pages/index.astro")
    Project.start
  = Ready {| rClientDirective := Some "client:load";
             rPattern := "@/components/*.vue"; rIsPathAlias := true;
             rResolvedPattern := "/p/src/components/*.vue";
             rBaseDir := "/p/src/components" |}.
Proof. vm_compute. reflexivity. Qed.

(** A resolution followed by the load of its identity. *)
Example resolve_then_load :
  let resolved :=
    resolveId Project.cwd Project.fg Project.getTsconfig Project.options
      "dc:load:./shared/*.jsx" (Some "/p/src/pages/a.astro") Project.start in
  resolved.1 = Some "/p/src/_generate_/_virtual_dc_33d26c54.astro"
  /\ trace resolved.2 = [Synthesize "/p/src/_generate_/_virtual_dc_33d26c54.astro"]
  /\ (load "/p/src/_generate_/_virtual_dc_33d26c54.astro" resolved.2).1
     = Some ("---" +:+ JS.nl
             +:+ "import Com_cd0fde9e from " +:+ JS.dq
             +:+ "../pages/shared/Card.jsx" +:+ JS.dq +:+ ";" +:+ JS.nl
             +:+ "import Com_23b61209 from " +:+ JS.dq
             +:+ "../pages/shared/Badge.jsx" +:+ JS.dq +:+ ";" +:+ JS.nl
             +:+ JS.nl
             +:+ "interface Props {" +:+ JS.nl
             +:+ "    comp: " +:+ JS.dq +:+ "Card" +:+ JS.dq +:+ " | "
             +:+ JS.dq +:+ "Badge" +:+ JS.dq +:+ ";" +:+ JS.nl
             +:+ "    [key: string]: any;" +:+ JS.nl
             +:+ "}" +:+ JS.nl
             +:+ JS.nl
             +:+ "const { comp, ...rest } = Astro.props;" +:+ JS.nl
             +:+ "---" +:+ JS.nl
             +:+ JS.nl
             +:+ "{ Astro.props.comp === " +:+ JS.dq +:+ "Card" +:+ JS.dq
             +:+ " && <Com_cd0fde9e client:load {...rest} /> }" +:+ JS.nl
             +:+ "{ Astro.props.comp === " +:+ JS.dq +:+ "Badge" +:+ JS.dq
             +:+ " && <Com_23b61209 client:load {...rest} /> }" +:+ JS.nl).
Proof. repeat apply conj; vm_compute; reflexivity. Qed.

(** ** Strings *)

Lemma app_cons a s t : String a s +:+ t = String a (s +:+ t).
Proof. reflexivity. Qed.

Lemma app_empty_l t : EmptyString +:+ t = t.
Proof. reflexivity. Qed.

Lemma app_assoc' s t u : (s +:+ t) +:+ u = s +:+ (t +:+ u).
Proof. induction s as [|a s IH]; [done|]. by rewrite !app_cons, IH. Qed.

Lemma take_drop n s : JS.take n s +:+ JS.drop n s = s.
Proof.
  revert s. induction n as [|n IH]; intros [|a s]; simpl; try done.
  by rewrite app_cons, IH.
Qed.

Lemma slice_0 n s : JS.slice 0 n s = JS.take n s.
Proof. unfold JS.slice. by rewrite Nat.sub_0_r. Qed.

Lemma take_firstIndex_noneIs p s : noneIs p (JS.take (firstIndex p s) s) = true.
Proof.
  induction s as [|a s IH]; simpl; [done|].
  destruct (p a) eqn:E; simpl; [done|]. by rewrite E, IH.
Qed.

Lemma drop_firstIndex_head p s :
  JS.drop (firstIndex p s) s = EmptyString
  \/ JS.headIs p (JS.drop (firstIndex p s) s) = true.
Proof.
  induction s as [|a s IH]; simpl; [by left|].
  destruct (p a) eqn:E; simpl; [by right|done].
Qed.

Lemma indexOf_firstIndex c s :
  match JS.indexOf c s with
  | Some i => i = firstIndex (fun a => Ascii.eqb a c) s /\ i < String.length s
  | None => firstIndex (fun a => Ascii.eqb a c) s = String.length s
  end.
Proof.
  induction s as [|a s IH]; simpl; [done|].
  destruct (Ascii.eqb a c); [lia|].
  destruct (JS.indexOf c s); simpl; lia.
Qed.

Lemma firstIndex_isGlobChar s :
  firstIndex isGlobChar s
  = Nat.min (Nat.min (Nat.min (firstIndex (fun a => Ascii.eqb a "*") s)
                                (firstIndex (fun a => Ascii.eqb a "?") s))
                       (firstIndex (fun a => Ascii.eqb a "[") s))
             (firstIndex (fun a => Ascii.eqb a "{") s).
Proof.
  induction s as [|a s IH]; simpl; [done|]. unfold isGlobChar at 1.
  destruct (Ascii.eqb a "*"), (Ascii.eqb a "?"), (Ascii.eqb a "["),
    (Ascii.eqb a "{"); simpl; lia.
Qed.

(** The loop of [getGlobBase] finds the first glob character. *)
Lemma firstGlobIndex_firstIndex pattern :
  foldl (fun firstGlobIndex char =>
           match JS.indexOf char pattern with
           | Some index =>
               if (index <? firstGlobIndex)%nat then index else firstGlobIndex
           | None => firstGlobIndex
           end)
        (String.length pattern) globChars
  = firstIndex isGlobChar pattern.
Proof.
  rewrite firstIndex_isGlobChar. unfold globChars. simpl.
  pose proof (indexOf_firstIndex "*" pattern) as H1.
  pose proof (indexOf_firstIndex "?" pattern) as H2.
  pose proof (indexOf_firstIndex "[" pattern) as H3.
  pose proof (indexOf_firstIndex "{" pattern) as H4.
  destruct (JS.indexOf "*" pattern), (JS.indexOf "?" pattern),
    (JS.indexOf "[" pattern), (JS.indexOf "{" pattern);
    repeat case_match; repeat match goal with H : (_ <? _)%nat = _ |- _ =>
      first [apply Nat.ltb_lt in H | apply Nat.ltb_ge in H] end; lia.
Qed.

Lemma lastIndexOf_split c s :
  match JS.lastIndexOf c s with
  | Some i =>
      s = JS.take i s +:+ String c (JS.drop (S i) s)
      /\ JS.includes c (JS.drop (S i) s) = false
  | None => JS.includes c s = false
  end.
Proof.
  induction s as [|a s IH]; simpl; [done|].
  destruct (JS.lastIndexOf c s) as [i|]; simpl.
  - destruct IH as [IH1 IH2]. split; [|exact IH2].
    change (String a s = String a (JS.take i s +:+ String c (JS.drop (S i) s))).
    by f_equal.
  - destruct (Ascii.eqb_spec a c) as [->|]; simpl; [|done].
    by destruct s.
Qed.

Lemma split_nonnil c s : JS.split c s <> [].
Proof.
  destruct s as [|a s]; simpl; [done|].
  destruct (Ascii.eqb a c); [done|]. by destruct (JS.split c s).
Qed.

Lemma split_app_sep c a b :
  JS.split c (a +:+ String c b) = JS.split c a ++ JS.split c b.
Proof.
  induction a as [|x a IH]; simpl.
  - by rewrite Ascii.eqb_refl.
  - rewrite IH. destruct (Ascii.eqb x c); [done|].
    pose proof (split_nonnil c a). by destruct (JS.split c a).
Qed.

Lemma split_plain c s : JS.includes c s = false -> JS.split c s = [s].
Proof.
  induction s as [|a s IH]; simpl; [done|].
  intros [-> H]%orb_false_elim. by rewrite IH.
Qed.

Lemma split_pieces_plain c s :
  Forall (fun piece => JS.includes c piece = false) (JS.split c s).
Proof.
  induction s as [|a s IH]; simpl; [by repeat constructor|].
  destruct (Ascii.eqb a c) eqn:E; [by constructor|].
  pose proof (split_nonnil c s).
  destruct (JS.split c s) as [|piece pieces]; [done|].
  apply Forall_cons in IH as [Hp Hps]. constructor; [|done]. simpl. by rewrite E.
Qed.

Lemma split_join c (pieces : list string) :
  pieces <> [] ->
  Forall (fun piece => JS.includes c piece = false) pieces ->
  JS.split c (JS.join (JS.str c) pieces) = pieces.
Proof.
  induction pieces as [|x pieces IH]; [done|]. intros _ [Hx Hps]%Forall_cons.
  destruct pieces as [|y pieces].
  - by apply split_plain.
  - change (JS.split c (x +:+ String c (JS.join (JS.str c) (y :: pieces)))
            = x :: y :: pieces).
    rewrite split_app_sep, IH, split_plain; done.
Qed.

(** ** The glob base extractor *)

(** C7. [getGlobBase] cuts the pattern before its first glob
    metacharacter (the whole pattern when it has none) and, of that
    literal prefix, returns what stands before the last slash, or a single
    dot when the prefix has no slash; so the base of [./a/b/*.vue] is
    [./a/b] and the base of [*.vue] is the dot. *)
Theorem getGlobBase_spec (pattern : string) :
  (exists literal rest : string,
      pattern = literal +:+ rest
      /\ noneIs isGlobChar literal = true
      /\ (rest = EmptyString \/ JS.headIs isGlobChar rest = true)
      /\ ((JS.includes "/" literal = false /\ getGlobBase pattern = ".")
          \/ exists file : string,
               literal = getGlobBase pattern +:+ "/" +:+ file
               /\ JS.includes "/" file = false))
  /\ getGlobBase "./a/b/*.vue" = "./a/b"
  /\ getGlobBase "*.vue" = ".".
Proof.
  split; [|by split].
  exists (JS.take (firstIndex isGlobChar pattern) pattern),
    (JS.drop (firstIndex isGlobChar pattern) pattern).
  split; [by rewrite take_drop|].
  split; [apply take_firstIndex_noneIs|].
  split; [apply drop_firstIndex_head|].
  unfold getGlobBase. rewrite firstGlobIndex_firstIndex, slice_0.
  set (literal := JS.take _ pattern).
  pose proof (lastIndexOf_split "/" literal) as H.
  destruct (JS.lastIndexOf "/" literal) as [i|].
  - right. destruct H as [H1 H2]. exists (JS.drop (S i) literal).
    rewrite slice_0. split; [exact H1|exact H2].
  - by left.
Qed.

(** ** The import-string parser *)

Lemma pathPart_startsPattern rest :
  pathPart rest = startsPattern rest && JS.noLineTerminator rest.
Proof.
  unfold pathPart, startsPattern.
  destruct (JS.startsWith "/" rest), (JS.startsWith "./" rest),
    (JS.startsWith "../" rest), (JS.headIs JS.isLetterOrAt rest); done.
Qed.

Lemma noLineTerminator_drop n s :
  JS.noLineTerminator s = true -> JS.noLineTerminator (JS.drop n s) = true.
Proof.
  revert s. induction n as [|n IH]; intros [|a s]; simpl; try done.
  intros [_ H]%andb_prop. by apply IH.
Qed.

Lemma app_colon_inv a s segment pat :
  String a s = segment +:+ ":" +:+ pat ->
  (segment = EmptyString /\ a = ":"%char /\ s = pat)
  \/ exists segment', segment = String a segment' /\ s = segment' +:+ ":" +:+ pat.
Proof.
  destruct segment as [|b segment]; rewrite ?app_cons, ?app_empty_l.
  - intros [= -> ->]. by left.
  - intros [= -> ->]. right. by eexists.
Qed.

Lemma pathMatch_Some s segment pat :
  JS.noLineTerminator s = true ->
  pathMatch s = Some (segment, pat) ->
  firstBoundary segment pat s.
Proof.
  revert segment. induction s as [|a s IH]; intros segment Hlt; [done|].
  simpl in Hlt. apply andb_prop in Hlt as [Ha Hs]. simpl.
  rewrite pathPart_startsPattern, Hs, andb_true_r.
  apply negb_true_iff in Ha. rewrite Ha.
  destruct (Ascii.eqb a ":" && startsPattern s) eqn:Hhere.
  - apply andb_prop in Hhere as [->%Ascii.eqb_eq Hsp].
    intros [= <- <-]. split; [by split|]. intros; simpl; lia.
  - destruct (pathMatch s) as [[seg0 pat0]|] eqn:Hm; [|done].
    intros [= <- <-]. destruct (IH seg0 Hs eq_refl) as [[Heq0 Hb] Hmin].
    split; [split; [by rewrite app_cons, <-Heq0|done]|].
    intros seg' pat' [Heq Hsp'].
    apply app_colon_inv in Heq as [(Hseg & Ha' & Hpat)|(seg'' & Hseg & Heq)].
    + subst a pat'. by rewrite Hsp' in Hhere.
    + subst seg'. simpl. apply le_n_S, (Hmin seg'' pat'). by split.
Qed.

Lemma pathMatch_None s :
  JS.noLineTerminator s = true -> pathMatch s = None -> noBoundary s.
Proof.
  induction s as [|a s IH]; intros Hlt.
  - intros _ [|b segment] pat [Heq _]; discriminate Heq.
  - simpl in Hlt. apply andb_prop in Hlt as [Ha Hs]. simpl.
    rewrite pathPart_startsPattern, Hs, andb_true_r.
    apply negb_true_iff in Ha. rewrite Ha.
    destruct (Ascii.eqb a ":" && startsPattern s) eqn:Hhere; [done|].
    destruct (pathMatch s) as [[? ?]|] eqn:Hm'; [done|].
    intros _ segment pat [Heq Hsp].
    apply app_colon_inv in Heq as [(Hseg & Ha' & Hpat)|(seg' & Hseg & Heq)].
    + subst a pat. by rewrite Hsp in Hhere.
    + by apply (IH Hs eq_refl seg' pat).
Qed.

Lemma app_length_inj s s' t t' :
  s +:+ t = s' +:+ t' -> String.length s = String.length s' ->
  s = s' /\ t = t'.
Proof.
  revert s'. induction s as [|a s IH]; intros [|a' s']; try discriminate.
  - by rewrite !app_empty_l.
  - rewrite !app_cons. intros [= -> H] [= Hl].
    by destruct (IH _ H Hl) as [-> ->].
Qed.

Lemma firstBoundary_unique s segment pat segment' pat' :
  firstBoundary segment pat s -> firstBoundary segment' pat' s ->
  segment = segment' /\ pat = pat'.
Proof.
  intros [[Heq Hsp] Hmin] [[Heq' Hsp'] Hmin'].
  assert (String.length segment = String.length segment') as Hl.
  { apply Nat.le_antisymm; [apply (Hmin segment' pat')|apply (Hmin' segment pat)];
      by split. }
  rewrite Heq in Heq'. apply app_length_inj in Heq' as [<- Heq']; [|done].
  split; [done|]. rewrite !app_cons, !app_empty_l in Heq'. congruence.
Qed.

(** C5, as the specification states it, fails on a specifier with a line
    terminator: the expression's dot does not match it, so no boundary is
    recognised and the whole remainder becomes the pattern. *)
Lemma parseDcImport_line_terminator :
  ~ (forall source default : string,
        JS.startsWith DC_PREFIX source = true ->
        parsesAtFirstBoundary source default).
Proof.
  intros H.
  destruct (H ("dc:idle:./a/*.vue" +:+ JS.nl) "load" eq_refl) as [Hfirst _].
  destruct (Hfirst "idle" ("./a/*.vue" +:+ JS.nl)) as [Hpat _]; [|done].
  split; [by split|]. intros segment' pat' [Heq _].
  change (String.length "idle") with 4.
  do 4 (destruct segment' as [|? segment']; [by vm_compute in Heq|]).
  simpl. lia.
Qed.

(** C5. For every specifier that carries the prefix and holds no line
    terminator (the line feed and the carriage return; U+2028 and
    U+2029, the other two, are in no string here), the parser strips the
    prefix and splits at the first
    colon immediately followed by [./], [../], [/], a letter or an at
    sign: with such a boundary the pattern is the text after that colon,
    an empty segment gives the null directive and a non-empty segment
    without an equals sign gives the keyword directive; without one the
    whole remainder is the pattern and the directive is the default
    keyword's. *)
Theorem parseDcImport_first_boundary (source default : string) :
  JS.startsWith DC_PREFIX source = true ->
  JS.noLineTerminator source = true ->
  parsesAtFirstBoundary source default.
Proof.
  intros _ Hlt. unfold parsesAtFirstBoundary, parseDcImport, JS.sliceFrom.
  set (remainder := JS.drop (String.length DC_PREFIX) source).
  assert (JS.noLineTerminator remainder = true) as Hlt'
    by by apply noLineTerminator_drop.
  destruct (pathMatch remainder) as [[seg0 pat0]|] eqn:Hm.
  - apply pathMatch_Some in Hm; [|done]. split.
    + intros segment pat Hfb.
      destruct (firstBoundary_unique _ _ _ _ _ Hm Hfb) as [-> ->].
      destruct (String.eqb_spec segment EmptyString) as [->|Hne]; [done|].
      split; [by destruct (JS.includes "=" segment)|].
      split; [done|]. by intros _ ->.
    + intros Hnb. destruct Hm as [Hb _]. by destruct (Hnb _ _ Hb).
  - apply pathMatch_None in Hm; [|done]. split; [|done].
    intros segment pat [Hb _]. by destruct (Hm _ _ Hb).
Qed.

Lemma parseDcImport_first_boundary_witness :
  parsesAtFirstBoundary "dc:load:./components/buttons/*.vue" "idle".
Proof.
  apply (parseDcImport_first_boundary "dc:load:./components/buttons/*.vue" "idle");
    reflexivity.
Defined.

(** The directive segment [parseDcImport] formats when the segment holds
    an equals sign: the pieces between the first three equals signs. *)
Lemma split_equals_pieces name value :
  JS.includes "=" name = false ->
  JS.split "=" (name +:+ "=" +:+ value) = name :: JS.split "=" value.
Proof.
  induction name as [|a name IH]; [done|].
  simpl. intros [Ha Hname]%orb_false_elim. by rewrite Ha, IH.
Qed.

(** C6. A directive segment with a second equals sign is split at every
    one of them and only the first two pieces are kept: of
    [media=(a=b)] the value is cut to [(a], where splitting once would
    keep [(a=b)]. *)
Theorem parseDcImport_splits_at_every_equals :
  parseDcImport "dc:media=(a=b):./x/*.vue" "load"
  = {| clientDirective := Some ("client:media=" +:+ JS.dq +:+ "(a" +:+ JS.dq);
       pattern := "./x/*.vue" |}
  /\ clientDirective (parseDcImport "dc:media=(a=b):./x/*.vue" "load")
     <> Some ("client:media=" +:+ JS.dq +:+ "(a=b)" +:+ JS.dq).
Proof. split; [reflexivity|discriminate]. Qed.

Lemma includes_app_sep c a b : JS.includes c (a +:+ String c b) = true.
Proof.
  induction a as [|x a IH]; simpl; [by rewrite Ascii.eqb_refl|].
  by rewrite IH, orb_true_r.
Qed.

Lemma firstBoundary_pathMatch remainder segment pat :
  JS.noLineTerminator remainder = true ->
  firstBoundary segment pat remainder ->
  pathMatch remainder = Some (segment, pat).
Proof.
  intros Hlt Hfb. destruct (pathMatch remainder) as [[seg0 pat0]|] eqn:Hm.
  - apply pathMatch_Some in Hm; [|done].
    by destruct (firstBoundary_unique _ _ _ _ _ Hm Hfb) as [-> ->].
  - apply pathMatch_None in Hm; [|done]. destruct Hfb as [Hb _].
    by destruct (Hm _ _ Hb).
Qed.

(** A directive segment with one equals sign is split into its key and
    its value, the value between quotes. *)
Lemma parseDcImport_one_equals source default name value pat :
  JS.noLineTerminator source = true ->
  firstBoundary (name +:+ "=" +:+ value) pat
    (JS.drop (String.length DC_PREFIX) source) ->
  JS.includes "=" name = false ->
  JS.includes "=" value = false ->
  parseDcImport source default
  = {| clientDirective :=
         Some ("client:" +:+ name +:+ "=" +:+ JS.dq +:+ value +:+ JS.dq);
       pattern := pat |}.
Proof.
  intros Hlt Hfb Hname Hvalue. unfold parseDcImport, JS.sliceFrom.
  rewrite (firstBoundary_pathMatch _ _ _ (noLineTerminator_drop _ _ Hlt) Hfb).
  change (name +:+ "=" +:+ value) with (name +:+ String "=" value).
  rewrite includes_app_sep.
  destruct (String.eqb_spec (name +:+ String "=" value) EmptyString) as [He|_];
    [by destruct name|].
  change (name +:+ String "=" value) with (name +:+ "=" +:+ value).
  by rewrite split_equals_pieces, split_plain.
Qed.

(** ** The synthesizer *)

(** C4. The conditional render expression of a component whose file ends
    in [.astro] carries no directive attribute, whatever the directive:
    the component's tag is followed by the passthrough properties only. *)
Theorem astro_component_has_no_directive
    (cwd baseDir filePath : string) (clientDirective : option string) :
  JS.endsWith ".astro" filePath = true ->
  let c := componentOf cwd baseDir filePath in
  isAstro c = true
  /\ clientAttr clientDirective c = EmptyString
  /\ conditionalRender clientDirective c
     = "{ Astro.props.comp === " +:+ JS.dq +:+ compName c +:+ JS.dq +:+ " && <"
       +:+ importName c +:+ " {...rest} /> }".
Proof.
  intros H c.
  assert (isAstro c = true) as Hc by exact H.
  assert (clientAttr clientDirective c = EmptyString) as Ha
    by (unfold clientAttr; by rewrite Hc).
  split; [done|]. split; [done|].
  unfold conditionalRender. by rewrite Ha.
Qed.

Lemma astro_component_has_no_directive_witness :
  let c := componentOf "/" "/p/src/pages/layouts" "/p/src/pages/layouts/Main.astro" in
  isAstro c = true
  /\ clientAttr (Some "client:load") c = EmptyString
  /\ conditionalRender (Some "client:load") c
     = "{ Astro.props.comp === " +:+ JS.dq +:+ compName c +:+ JS.dq +:+ " && <"
       +:+ importName c +:+ " {...rest} /> }".
Proof.
  apply (astro_component_has_no_directive "/" "/p/src/pages/layouts"
           "/p/src/pages/layouts/Main.astro" (Some "client:load")).
  reflexivity.
Defined.

(** ** The alias resolver *)

Lemma viteAliasLoop_find aliasPath aliasArray :
  viteAliasLoop aliasPath aliasArray
  = (fun a => JS.replace (findText a) (replacement a) aliasPath)
      <$> List.find (viteQualifies aliasPath) aliasArray.
Proof.
  induction aliasArray as [|a rest IH]; [done|]. simpl.
  unfold viteQualifies at 1.
  destruct (Path.nonEmpty (findText a)); simpl; [|exact IH].
  by destruct (JS.startsWith (findText a) aliasPath).
Qed.

Lemma tsPathsLoop_find cwd aliasPath tsconfig entries :
  tsPathsLoop cwd aliasPath (baseUrlResolvedOf cwd tsconfig) entries
  = tsResolved cwd aliasPath tsconfig
      <$> List.find (tsQualifies aliasPath) entries.
Proof.
  induction entries as [|[pattern mappings] rest IH]; [done|]. simpl.
  unfold tsQualifies at 1, firstTarget at 1. simpl.
  destruct (JS.startsWith (JS.stripTrailingStar pattern) aliasPath); simpl;
    [|exact IH].
  destruct (mappings !! 0%nat) as [mapping|] eqn:Hm; simpl; [|exact IH].
  destruct (Path.nonEmpty mapping) eqn:Hne; simpl; [|exact IH].
  unfold tsResolved, firstTarget. simpl. by rewrite Hm, Hne.
Qed.

Lemma find_None_Forall {A} (p : A -> bool) (l : list A) :
  List.find p l = None <-> Forall (fun x => p x = false) l.
Proof.
  induction l as [|x l IH]; simpl; [by split|].
  destruct (p x) eqn:E.
  - split; [done|]. intros H. inversion H; congruence.
  - rewrite IH. split; [by constructor|]. intros H. by inversion H.
Qed.

Lemma getSubstitution_plain matched before after repl :
  JS.includes "$" repl = false ->
  JS.getSubstitution matched before after repl = repl.
Proof.
  induction repl as [|a repl IH]; [done|]. simpl.
  intros [-> H]%orb_false_elim. by rewrite IH.
Qed.

Lemma search_startsWith needle s :
  JS.startsWith needle s = true -> JS.search needle s = Some 0.
Proof. intros H. destruct s; simpl; by rewrite H. Qed.

Lemma replace_prefix needle repl s :
  JS.startsWith needle s = true ->
  JS.includes "$" repl = false ->
  JS.replace needle repl s = repl +:+ JS.drop (String.length needle) s.
Proof.
  intros Hs Hr. unfold JS.replace. rewrite search_startsWith by done.
  simpl. rewrite getSubstitution_plain by done. by destruct s.
Qed.

Lemma stripTrailingStar_slash_star key :
  JS.stripTrailingStar (key +:+ "/*") = key.
Proof.
  induction key as [|a key IH]; [done|].
  rewrite app_cons. simpl. rewrite IH.
  assert ((key +:+ "/*" =? "*")%string = false) as ->
    by (destruct key as [|b [|c key]]; simpl; try done;
        by destruct (b =? "*")%char).
  assert ((key +:+ "/*" =? EmptyString)%string = false) as ->
    by by destruct key.
  by destruct (a =? "/")%char, (a =? "*")%char.
Qed.

(** C8, as the specification states it, fails on a path mapping without a
    replacement target: its pattern matches, the resolver skips it and
    returns null. *)
Lemma resolveAlias_skips_empty_mapping : ~ nullExactlyWhenNoPrefix.
Proof.
  intros H.
  destruct (H "/p"
              (fun _ => Some {| tsPath := "/p/tsconfig.json"; baseUrl := Some ".";
                                paths := Some [("@/*", [])] |})
              "@/components" None "/p") as [Hnone _].
  destruct (Hnone eq_refl) as [_ Hts].
  by inversion Hts.
Qed.

(** C8. [resolveAlias] looks up two tiers, the build-tool aliases first:
    the first alias with a non-empty [find] that is a prefix of the path
    wins, and the result is the path with that prefix replaced (by the
    replacement as it stands when it holds no dollar sign); only when no
    alias wins are the path mappings consulted, where the first mapping
    wins whose pattern, its final [/*] stripped, is a prefix of the path
    and whose first target exists and is not empty, the result being that
    target, stripped alike, followed by the rest of the path and resolved
    against the mapping file's base directory; the result is null exactly
    when no alias and no path mapping wins. *)
Theorem resolveAlias_two_tiers
    (cwd : string) (getTsconfig : string -> option TsConfigResult)
    (aliasPath : string) (viteConfig : option ViteConfig) (root : string) :
  resolveAlias cwd getTsconfig aliasPath viteConfig root
  = match List.find (viteQualifies aliasPath) (aliasesOf viteConfig) with
    | Some a => Some (JS.replace (findText a) (replacement a) aliasPath)
    | None =>
        tsconfig ← getTsconfig root;
        tsResolved cwd aliasPath tsconfig
          <$> List.find (tsQualifies aliasPath) (default [] (paths tsconfig))
    end
  /\ (forall a : Alias,
         viteQualifies aliasPath a = true ->
         JS.includes "$" (replacement a) = false ->
         JS.replace (findText a) (replacement a) aliasPath
         = replacement a +:+ JS.drop (String.length (findText a)) aliasPath)
  /\ (forall key : string, JS.stripTrailingStar (key +:+ "/*") = key)
  /\ (resolveAlias cwd getTsconfig aliasPath viteConfig root = None
      <-> Forall (fun a => viteQualifies aliasPath a = false) (aliasesOf viteConfig)
          /\ Forall (fun e => tsQualifies aliasPath e = false)
                    (pathsOf getTsconfig root)).
Proof.
  assert (resolveAlias cwd getTsconfig aliasPath viteConfig root
          = match List.find (viteQualifies aliasPath) (aliasesOf viteConfig) with
            | Some a => Some (JS.replace (findText a) (replacement a) aliasPath)
            | None =>
                tsconfig ← getTsconfig root;
                tsResolved cwd aliasPath tsconfig
                  <$> List.find (tsQualifies aliasPath) (default [] (paths tsconfig))
            end) as Heq.
  { unfold resolveAlias, aliasesOf, tsconfigAlias.
    destruct (viteConfig ≫= alias) as [aliasArray|]; simpl.
    - rewrite viteAliasLoop_find.
      destruct (List.find (viteQualifies aliasPath) aliasArray); simpl; [done|].
      destruct (getTsconfig root) as [ts|]; simpl; [|done].
      destruct (paths ts); simpl; [|done]. apply tsPathsLoop_find.
    - destruct (getTsconfig root) as [ts|]; simpl; [|done].
      destruct (paths ts); simpl; [|done]. apply tsPathsLoop_find. }
  split; [exact Heq|]. split.
  { intros a [_ Hp]%andb_prop Hd. by apply replace_prefix. }
  split; [apply stripTrailingStar_slash_star|].
  rewrite Heq, <-!find_None_Forall. unfold pathsOf.
  destruct (List.find (viteQualifies aliasPath) (aliasesOf viteConfig)); simpl.
  { split; [done|]. by intros [? _]. }
  destruct (getTsconfig root) as [ts|]; simpl; [|done].
  destruct (paths ts) as [entries|]; simpl; [|done].
  destruct (List.find (tsQualifies aliasPath) entries); simpl.
  - split; [done|]. by intros [_ ?].
  - done.
Qed.

(** ** The orchestrator: failures *)

(** C9. No failure is fatal and each is confined to one specifier: a
    specifier without the prefix is declined silently, the state
    untouched; a prefixed specifier without importer, with an alias that
    does not resolve, or with no matched file is declined with null, and
    the trace grows by exactly one console warning, the one the code
    writes for that failure, while configuration, project root and cache
    stay as they were; and [load] of a virtual identity that has no code
    in the cache returns null, again with exactly one console warning
    and nothing else changed. *)
Theorem failures_decline_with_warning
    (cwd : string) (fg : string -> list string)
    (getTsconfig : string -> option TsConfigResult) (options : Options)
    (source : string) (importer : option string) (id : string) (st : State) :
  let parsed := parseDcImport source (defaultClientDirective options) in
  let resolved := resolveId cwd fg getTsconfig options source importer st in
  let loaded := load id st in
  (JS.startsWith DC_PREFIX source = false ->
   resolved.1 = None /\ resolved.2 = st /\ trace resolved.2 = trace st)
  /\ (JS.startsWith DC_PREFIX source = true -> truthy importer = false ->
      resolved.1 = None
      /\ trace resolved.2
         = ConsoleWarn ("[dynamic-component] Cannot resolve " +:+ JS.dq +:+ source
                        +:+ JS.dq +:+ " without importer") :: trace st
      /\ viteConfig resolved.2 = viteConfig st
      /\ projectRoot resolved.2 = projectRoot st
      /\ codeCache resolved.2 = codeCache st)
  /\ (JS.startsWith DC_PREFIX source = true -> truthy importer = true ->
      isAliasPattern (pattern parsed) = true ->
      truthy (resolveAlias cwd getTsconfig (getGlobBase (pattern parsed))
                (viteConfig st) (projectRoot st)) = false ->
      resolved.1 = None
      /\ trace resolved.2
         = ConsoleWarn ("[dynamic-component] Cannot resolve path alias " +:+ JS.dq
                        +:+ getGlobBase (pattern parsed) +:+ JS.dq +:+ ".")
             :: trace st
      /\ viteConfig resolved.2 = viteConfig st
      /\ projectRoot resolved.2 = projectRoot st
      /\ codeCache resolved.2 = codeCache st)
  /\ (forall r : Resolved,
         resolveRequest cwd getTsconfig options source importer st = Ready r ->
         fg (rResolvedPattern r) = [] ->
         rPattern r = pattern parsed
         /\ resolved.1 = None
         /\ trace resolved.2
            = ConsoleWarn ("[dynamic-component] No files matched for pattern "
                           +:+ JS.dq +:+ pattern parsed +:+ JS.dq) :: trace st
         /\ viteConfig resolved.2 = viteConfig st
         /\ projectRoot resolved.2 = projectRoot st
         /\ codeCache resolved.2 = codeCache st)
  /\ (isVirtualId id = true -> truthy (codeCache st !! id) = false ->
      loaded.1 = None
      /\ trace loaded.2
         = ConsoleWarn ("[dynamic-component] Code not found in cache for " +:+ id)
             :: trace st
      /\ viteConfig loaded.2 = viteConfig st
      /\ projectRoot loaded.2 = projectRoot st
      /\ codeCache loaded.2 = codeCache st).
Proof.
  intros parsed resolved loaded.
  assert (forall r : Resolved,
             resolveRequest cwd getTsconfig options source importer st = Ready r ->
             rPattern r = pattern parsed) as Hpattern.
  { intros r Hr. unfold resolveRequest in Hr.
    destruct (negb (JS.startsWith DC_PREFIX source)); [done|].
    destruct (negb (truthy importer)); [done|].
    fold parsed in Hr. repeat case_match; by simplify_eq. }
  split; [|split; [|split; [|split]]].
  - intros Hprefix. unfold resolved, resolveId, resolveRequest. by rewrite Hprefix.
  - intros Hprefix Himporter. unfold resolved, resolveId, resolveRequest.
    by rewrite Hprefix, Himporter.
  - intros Hprefix Himporter Halias Hresolved.
    unfold resolved, resolveId, resolveRequest. rewrite Hprefix, Himporter.
    cbn [negb]. cbv zeta. fold parsed. unfold isAliasPattern in Halias.
    by rewrite Halias, Hresolved.
  - intros r Hr Hfiles. split; [by apply Hpattern|].
    unfold resolved, resolveId. rewrite Hr. unfold resolveFiles. rewrite Hfiles.
    cbn [List.length Nat.eqb]. by rewrite (Hpattern r Hr).
  - intros [Hstart Hend]%andb_prop Hcache. unfold loaded, load.
    by rewrite Hstart, Hend, Hcache.
Qed.

Lemma failures_decline_with_warning_witness :
  let resolved :=
    resolveId Project.cwd Project.fg Project.getTsconfig Project.options
      "dc:load:@/components/*.vue" (Some "/p/src/pages/a.astro") Project.start in
  let loaded := load "/p/src/_generate_/_virtual_dc_33d26c54.astro" Project.start in
  (resolved.1 = None
   /\ trace resolved.2
      = [ConsoleWarn ("[dynamic-component] Cannot resolve path alias " +:+ JS.dq
                      +:+ "@/components" +:+ JS.dq +:+ ".")])
  /\ (loaded.1 = None
      /\ trace loaded.2
         = [ConsoleWarn ("[dynamic-component] Code not found in cache for "
                         +:+ "/p/src/_generate_/_virtual_dc_33d26c54.astro")]).
Proof.
  intros resolved loaded.
  destruct (failures_decline_with_warning Project.cwd Project.fg
              Project.getTsconfig Project.options "dc:load:@/components/*.vue"
              (Some "/p/src/pages/a.astro")
              "/p/src/_generate_/_virtual_dc_33d26c54.astro" Project.start)
    as (_ & _ & Halias & _ & Hload).
  split.
  - destruct Halias as (Hnone & Htrace & _); [reflexivity..|].
    split; [exact Hnone|exact Htrace].
  - destruct Hload as (Hnone & Htrace & _); [reflexivity..|].
    split; [exact Hnone|exact Htrace].
Defined.

(** ** The orchestrator: identities and the cache *)

Lemma sort_Permutation (xs ys : list string) :
  xs ≡ₚ ys -> JS.sort xs = JS.sort ys.
Proof.
  intros H. unfold JS.sort.
  apply (Sorted_unique String.le); [apply Sorted_merge_sort, _..|].
  by rewrite !merge_sort_Permutation.
Qed.

Lemma filesHash_Permutation cwd options root (files1 files2 : list string) :
  files1 ≡ₚ files2 -> filesHash cwd options root files1 = filesHash cwd options root files2.
Proof.
  intros H. unfold filesHash. do 2 f_equal. apply sort_Permutation.
  by apply fmap_Permutation.
Qed.

Lemma resolveFiles_identity cwd options r (files : list string) st :
  files <> [] ->
  (resolveFiles cwd options r files st).1
  = Some (virtualFilePathOf cwd options (projectRoot st) files).
Proof.
  intros Hne. unfold resolveFiles. destruct files as [|f files]; [done|].
  cbn [List.length Nat.eqb]. cbv zeta. fold (virtualFilePathOf cwd options (projectRoot st) (f :: files)).
  by destruct (codeCache st !! _).
Qed.

Lemma resolveFiles_hit cwd options r (files : list string) st :
  files <> [] ->
  is_Some (codeCache st !! virtualFilePathOf cwd options (projectRoot st) files) ->
  resolveFiles cwd options r files st
  = (Some (virtualFilePathOf cwd options (projectRoot st) files), st).
Proof.
  intros Hne [code Hc]. unfold resolveFiles. destruct files as [|f files]; [done|].
  cbn [List.length Nat.eqb]. cbv zeta.
  fold (virtualFilePathOf cwd options (projectRoot st) (f :: files)).
  by rewrite Hc.
Qed.

Lemma resolveFiles_cached cwd options r (files : list string) st :
  files <> [] ->
  let st' := (resolveFiles cwd options r files st).2 in
  projectRoot st' = projectRoot st
  /\ is_Some (codeCache st' !! virtualFilePathOf cwd options (projectRoot st) files)
  /\ (forall id code, codeCache st !! id = Some code -> codeCache st' !! id = Some code).
Proof.
  intros Hne. unfold resolveFiles. destruct files as [|f files]; [done|].
  cbn [List.length Nat.eqb]. cbv zeta.
  fold (virtualFilePathOf cwd options (projectRoot st) (f :: files)).
  destruct (codeCache st !! _) as [code|] eqn:Hc; simpl.
  - by rewrite Hc.
  - split; [done|]. split; [by rewrite lookup_insert_eq|].
    intros id code Hid. rewrite lookup_insert_ne; [done|congruence].
Qed.

(** C1, as the specification states it, fails: [dc:load:./shared/*.jsx]
    and [dc:idle:./shared/*.jsx], imported from two pages, resolve to one
    and the same virtual file. *)
Lemma directives_share_identity : ~ distinctDirectivesDistinctIdentities.
Proof.
  intros H.
  pose (st1 := (resolveId Project.cwd Project.fg Project.getTsconfig Project.options
                  "dc:load:./shared/*.jsx" (Some "/p/src/pages/a.astro")
                  Project.start).2).
  eapply (H Project.cwd Project.fg Project.getTsconfig Project.options
            "dc:load:./shared/*.jsx" "dc:idle:./shared/*.jsx"
            (Some "/p/src/pages/a.astro") (Some "/p/src/pages/b.astro")
            _ _ _ _ Project.start st1 st1).
  - reflexivity.
  - reflexivity.
  - reflexivity.
  - simpl. discriminate.
  - vm_compute. reflexivity.
  - vm_compute. reflexivity.
  - reflexivity.
Qed.

Lemma sort_eq_Permutation (xs ys : list string) :
  JS.sort xs = JS.sort ys -> xs ≡ₚ ys.
Proof.
  intros H. unfold JS.sort in H.
  by rewrite <-(merge_sort_Permutation String.le xs), H, merge_sort_Permutation.
Qed.

Lemma synthesized_app id (events events' : list Event) :
  synthesized id (events ++ events') = synthesized id events + synthesized id events'.
Proof. unfold synthesized. by rewrite List.filter_app, length_app. Qed.

(** A resolution whose identity the cache does not hold yet synthesizes
    the module once and puts it into the cache. *)
Lemma resolveFiles_miss cwd options r (files : list string) st :
  files <> [] ->
  let id := virtualFilePathOf cwd options (projectRoot st) files in
  let code :=
    generateVirtualAstroComponent cwd (rPattern r) (rBaseDir r) (rClientDirective r)
      (componentOf cwd (rBaseDir r) <$> files) (rIsPathAlias r)
      (Path.resolve cwd [projectRoot st; srcDir options]) in
  codeCache st !! id = None ->
  let result := resolveFiles cwd options r files st in
  result.1 = Some id
  /\ codeCache result.2 = <[id := code]> (codeCache st)
  /\ (forall id', synthesized id' (trace result.2)
                  = (if String.eqb id' id then 1 else 0) + synthesized id' (trace st))
  /\ projectRoot result.2 = projectRoot st
  /\ viteConfig result.2 = viteConfig st.
Proof.
  intros Hne id code Hmiss result. subst result. unfold resolveFiles.
  destruct files as [|f files]; [done|].
  cbn [List.length Nat.eqb]. cbv zeta.
  fold (virtualFilePathOf cwd options (projectRoot st) (f :: files)). fold id.
  rewrite Hmiss. cbn [fst snd codeCache trace projectRoot viteConfig].
  split; [done|]. split; [done|]. split; [|done].
  intros id'. rewrite synthesized_app.
  assert (synthesized id'
            (if optLogger options
             then [LoggerDebug ("[dynamic-component] Generated virtual component at "
                                +:+ id +:+ " with "
                                +:+ pretty (List.length
                                              (componentOf cwd (rBaseDir r)
                                                 <$> f :: files))
                                +:+ " components")]
             else []) = 0) as -> by by destruct (optLogger options).
  unfold synthesized. cbn [List.filter]. by destruct (String.eqb id' id).
Qed.

Lemma synthesizedOnceIfCached_resolveFiles cwd options r (files : list string) st :
  synthesizedOnceIfCached st ->
  synthesizedOnceIfCached (resolveFiles cwd options r files st).2.
Proof.
  intros H. destruct files as [|f files]; [exact H|].
  set (id := virtualFilePathOf cwd options (projectRoot st) (f :: files)).
  destruct (codeCache st !! id) as [code|] eqn:Hc.
  - rewrite resolveFiles_hit; [exact H|done|]. fold id. by rewrite Hc.
  - destruct (resolveFiles_miss cwd options r (f :: files) st ltac:(done) Hc)
      as (_ & Hcache & Htrace & _).
    intros id'. rewrite Htrace, Hcache, (H id'). fold id.
    destruct (String.eqb_spec id' id) as [->|Hne].
    + by rewrite lookup_insert_eq, Hc.
    + by rewrite lookup_insert_ne.
Qed.

Lemma synthesizedOnceIfCached_call cwd fg getTsconfig options st c :
  synthesizedOnceIfCached st ->
  synthesizedOnceIfCached (call cwd fg getTsconfig options st c).
Proof.
  intros H. destruct c as [config|source importer|id]; simpl.
  - exact H.
  - unfold resolveId.
    destruct (resolveRequest cwd getTsconfig options source importer st);
      [exact H|exact H|by apply synthesizedOnceIfCached_resolveFiles].
  - unfold load. repeat case_match; exact H.
Qed.

Lemma synthesizedOnceIfCached_run cwd fg getTsconfig options calls :
  synthesizedOnceIfCached (run cwd fg getTsconfig options calls).
Proof.
  unfold run.
  assert (synthesizedOnceIfCached (initialState cwd)) as Hinit
    by (intros id; cbn [initialState trace codeCache]; by rewrite lookup_empty).
  revert Hinit. generalize (initialState cwd).
  induction calls as [|c calls IH]; intros st Hst; [exact Hst|].
  simpl. by apply IH, synthesizedOnceIfCached_call.
Qed.

(** C2. Two resolutions whose globs match the same files, in whatever
    order the file system lists them, and that carry the same directive
    both return an identity, and the same one, the identity of the file
    list. Of two such resolutions on one plugin, one after the other,
    the first leaves the identity in the cache, having run the
    synthesizer for it once unless the cache already held it, and the
    second returns the identity without changing the state: a cache hit.
    Over any sequence of calls on a plugin the synthesizer has run
    exactly once for every identity the cache holds and never for
    another, so at most once for any identity; and every resolution that
    returns a cached identity changes nothing. *)
Theorem same_files_one_identity_one_synthesis
    (cwd : string) (getTsconfig : string -> option TsConfigResult)
    (options : Options) :
  (forall (fg1 fg2 : string -> list string) (source1 source2 : string)
          (importer1 importer2 : option string) (r1 r2 : Resolved)
          (st1 st2 : State),
      resolveRequest cwd getTsconfig options source1 importer1 st1 = Ready r1 ->
      resolveRequest cwd getTsconfig options source2 importer2 st2 = Ready r2 ->
      projectRoot st1 = projectRoot st2 ->
      fg1 (rResolvedPattern r1) <> [] ->
      fg1 (rResolvedPattern r1) ≡ₚ fg2 (rResolvedPattern r2) ->
      rClientDirective r1 = rClientDirective r2 ->
      let id :=
        virtualFilePathOf cwd options (projectRoot st1) (fg1 (rResolvedPattern r1)) in
      (resolveId cwd fg1 getTsconfig options source1 importer1 st1).1 = Some id
      /\ (resolveId cwd fg2 getTsconfig options source2 importer2 st2).1 = Some id)
  /\ (forall (fg : string -> list string) (source1 source2 : string)
             (importer1 importer2 : option string) (r1 r2 : Resolved) (st : State),
         let first := resolveId cwd fg getTsconfig options source1 importer1 st in
         let id :=
           virtualFilePathOf cwd options (projectRoot st) (fg (rResolvedPattern r1)) in
         resolveRequest cwd getTsconfig options source1 importer1 st = Ready r1 ->
         resolveRequest cwd getTsconfig options source2 importer2 first.2 = Ready r2 ->
         fg (rResolvedPattern r1) <> [] ->
         fg (rResolvedPattern r1) ≡ₚ fg (rResolvedPattern r2) ->
         rClientDirective r1 = rClientDirective r2 ->
         first.1 = Some id
         /\ is_Some (codeCache first.2 !! id)
         /\ synthesized id (trace first.2)
            = synthesized id (trace st)
              + match codeCache st !! id with Some _ => 0 | None => 1 end
         /\ resolveId cwd fg getTsconfig options source2 importer2 first.2
            = (Some id, first.2))
  /\ (forall (fg : string -> list string) (calls : list Call) (id : string),
         synthesized id (trace (run cwd fg getTsconfig options calls))
         = match codeCache (run cwd fg getTsconfig options calls) !! id with
           | Some _ => 1
           | None => 0
           end
         /\ synthesized id (trace (run cwd fg getTsconfig options calls)) <= 1)
  /\ (forall (fg : string -> list string) (source : string)
             (importer : option string) (st : State) (id : string),
         (resolveId cwd fg getTsconfig options source importer st).1 = Some id ->
         is_Some (codeCache st !! id) ->
         (resolveId cwd fg getTsconfig options source importer st).2 = st).
Proof.
  split; [|split; [|split]].
  - intros fg1 fg2 source1 source2 importer1 importer2 r1 r2 st1 st2
      Hr1 Hr2 Hroot Hne Hperm _ id.
    assert (fg2 (rResolvedPattern r2) <> []) as Hne2.
    { intros Hnil. rewrite Hnil in Hperm. by apply Permutation_nil_r in Hperm. }
    unfold resolveId. rewrite Hr1, Hr2.
    rewrite (resolveFiles_identity _ _ r1 _ st1) by done.
    rewrite (resolveFiles_identity _ _ r2 _ st2) by done.
    split; [done|]. unfold id, virtualFilePathOf.
    by rewrite Hroot, (filesHash_Permutation _ _ _ _ _ Hperm).
  - intros fg source1 source2 importer1 importer2 r1 r2 st first id
      Hr1 Hr2 Hne Hperm _.
    assert (fg (rResolvedPattern r2) <> []) as Hne2.
    { intros Hnil. rewrite Hnil in Hperm. by apply Permutation_nil_r in Hperm. }
    assert (first = resolveFiles cwd options r1 (fg (rResolvedPattern r1)) st)
      as Hfirst by (unfold first, resolveId; by rewrite Hr1).
    assert (virtualFilePathOf cwd options (projectRoot st) (fg (rResolvedPattern r2))
            = id) as Hid.
    { unfold id, virtualFilePathOf. by rewrite (filesHash_Permutation _ _ _ _ _ Hperm). }
    destruct (resolveFiles_cached cwd options r1 _ st Hne) as (Hroot & Hin & _).
    rewrite <-Hfirst in Hroot, Hin. fold id in Hin.
    split; [rewrite Hfirst; by apply resolveFiles_identity|].
    split; [exact Hin|]. split.
    + destruct (codeCache st !! id) as [code|] eqn:Hc.
      * rewrite Hfirst, resolveFiles_hit; [cbn [snd]; lia|done|].
        fold id. by rewrite Hc.
      * destruct (resolveFiles_miss cwd options r1 _ st Hne Hc) as (_ & _ & Htrace & _).
        rewrite Hfirst, (Htrace id), String.eqb_refl. lia.
    + unfold resolveId. rewrite Hr2, <-Hid, <-Hroot.
      apply resolveFiles_hit; [done|]. by rewrite Hroot, Hid.
  - intros fg calls id.
    pose proof (synthesizedOnceIfCached_run cwd fg getTsconfig options calls id) as H.
    split; [exact H|]. rewrite H. destruct (codeCache _ !! id); lia.
  - intros fg source importer st id. unfold resolveId.
    destruct (resolveRequest cwd getTsconfig options source importer st) as [| |r];
      [done..|].
    destruct (fg (rResolvedPattern r)) as [|f files] eqn:Hf; [done|].
    rewrite resolveFiles_identity by done. intros [= <-] Hc.
    by rewrite resolveFiles_hit.
Qed.

Lemma same_files_one_identity_one_synthesis_witness :
  let id := "/p/src/_generate_/_virtual_dc_33d26c54.astro" in
  let listed := fun p : string => rev (Project.fg p) in
  let first :=
    resolveId Project.cwd Project.fg Project.getTsconfig Project.options
      "dc:load:./shared/*.jsx" (Some "/p/src/pages/a.astro") Project.start in
  (first.1 = Some id
   /\ (resolveId Project.cwd listed Project.getTsconfig Project.options
         "dc:load:./shared/*.jsx" (Some "/p/src/pages/b.astro") Project.start).1
      = Some id)
  /\ (synthesized id (trace first.2) = 1
      /\ resolveId Project.cwd Project.fg Project.getTsconfig Project.options
           "dc:load:./shared/*.jsx" (Some "/p/src/pages/b.astro") first.2
         = (Some id, first.2))
  /\ synthesized id
       (trace (run Project.cwd Project.fg Project.getTsconfig Project.options
                 [CallResolveId "dc:load:./shared/*.jsx" (Some "/p/src/pages/a.astro");
                  CallResolveId "dc:load:./shared/*.jsx" (Some "/p/src/pages/b.astro");
                  CallLoad "/p/src/_generate_/_virtual_dc_33d26c54.astro"]))
     <= 1.
Proof.
  intros id listed first.
  destruct (same_files_one_identity_one_synthesis Project.cwd Project.getTsconfig
              Project.options) as (Hsame & Hhit & Honce & _).
  pose (r := {| rClientDirective := Some "client:load"; rPattern := "./shared/*.jsx";
                rIsPathAlias := false;
                rResolvedPattern := "/p/src/pages/shared/*.jsx";
                rBaseDir := "/p/src/pages/shared" |}).
  assert (virtualFilePathOf Project.cwd Project.options (projectRoot Project.start)
            (Project.fg (rResolvedPattern r)) = id) as Hid
    by (vm_compute; reflexivity).
  split; [|split].
  - rewrite <-Hid.
    apply (Hsame Project.fg listed "dc:load:./shared/*.jsx" "dc:load:./shared/*.jsx"
             (Some "/p/src/pages/a.astro") (Some "/p/src/pages/b.astro") r r
             Project.start Project.start);
      [vm_compute; reflexivity|vm_compute; reflexivity|reflexivity|discriminate
      |apply perm_swap|reflexivity].
  - destruct (Hhit Project.fg "dc:load:./shared/*.jsx" "dc:load:./shared/*.jsx"
                (Some "/p/src/pages/a.astro") (Some "/p/src/pages/b.astro") r r
                Project.start)
      as (_ & _ & Hcount & Hsecond);
      [vm_compute; reflexivity|vm_compute; reflexivity|discriminate|reflexivity
      |reflexivity|].
    rewrite Hid in Hcount, Hsecond. split; [exact Hcount|exact Hsecond].
  - apply Honce.
Defined.

(** ** The orchestrator: display names and branches *)

Lemma firing_elem comp c components :
  c ∈ components -> fires comp c = true -> 1 <= List.length (firing comp components).
Proof.
  induction 1 as [c components|c c' components _ IH]; intros Hf; simpl.
  - rewrite Hf. simpl. lia.
  - destruct (fires comp c'); simpl; [|by apply IH].
    specialize (IH Hf). lia.
Qed.

Lemma firing_NoDup comp components :
  NoDup (compName <$> components) ->
  List.length (firing comp components) <= 1.
Proof.
  induction components as [|c components IH]; simpl; [lia|].
  intros [Hnotin Hnd]%NoDup_cons. specialize (IH Hnd).
  destruct (fires comp c) eqn:Hf; [|done]. simpl.
  enough (firing comp components = []) as -> by (simpl; lia).
  apply String.eqb_eq in Hf. subst comp.
  clear -Hnotin. induction components as [|c' components IH]; [done|]. simpl.
  apply not_elem_of_cons in Hnotin as [Hne Hnotin].
  unfold fires at 1. destruct (String.eqb_spec (compName c) (compName c')); [done|].
  by apply IH.
Qed.

(** C3, as the specification states it, fails on two files that differ
    in their extension only: [Button.vue] and [Button.jsx] share the name
    [Button], which fires both branches. *)
Lemma same_stem_fires_two_branches : ~ everyNameFiresOneBranch.
Proof.
  intros H.
  assert (List.length
            (firing (compName (componentOf "/p" "/p/src/pages/buttons"
                                 "/p/src/pages/buttons/Button.vue"))
               (componentOf "/p" "/p/src/pages/buttons"
                  <$> ["/p/src/pages/buttons/Button.vue";
                       "/p/src/pages/buttons/Button.jsx"])) = 1) as Hone.
  { apply H.
    - apply NoDup_cons. split; [|apply NoDup_singleton].
      intros [=]%list_elem_of_singleton.
    - apply list_elem_of_here. }
  vm_compute in Hone. discriminate Hone.
Qed.

(** ** The orchestrator: patterns that begin with a slash *)












Lemma normalizePath_plain s :
  JS.includes "\" s = false -> normalizePath s = s.
Proof.
  induction s as [|a s IH]; [done|]. simpl.
  intros [Ha H]%orb_false_elim.
  change (String (if Ascii.eqb a "\" then "/"%char else a) (normalizePath s)
          = String a s).
  by rewrite Ha, IH.
Qed.








(** A backslash turns a pattern without a [..] segment into one that
    climbs: [normalizePath] makes separators of the backslashes of
    [/..\..\secret/*.vue] after [path.join] has run. *)
Example slash_pattern_backslash :
  let pattern := "/..\..\secret/*.vue" in
  noDotDot pattern = true
  /\ exists r : Resolved,
       resolveRequest Project.cwd Project.getTsconfig Project.options
         ("dc:load:" +:+ pattern) (Some "/p/src/pages/index.astro") Project.start
       = Ready r
       /\ rResolvedPattern r = "/p/src/pages/../../secret/*.vue".
Proof. split; [reflexivity|]. eexists. split; reflexivity. Qed.



(** * Further properties of the code *)

(** ** Strings, again *)

Lemma length_app_str s t :
  String.length (s +:+ t) = String.length s + String.length t.
Proof. induction s as [|a s IH]; [done|]. simpl. by rewrite IH. Qed.

Lemma take_app_length s t : JS.take (String.length s) (s +:+ t) = s.
Proof. induction s as [|a s IH]; [by destruct t|]. simpl. by rewrite IH. Qed.

Lemma drop_app_length s t : JS.drop (String.length s) (s +:+ t) = t.
Proof. induction s as [|a s IH]; [done|]. simpl. by rewrite IH. Qed.

Lemma take_length n s : String.length (JS.take n s) = Nat.min n (String.length s).
Proof.
  revert s. induction n as [|n IH]; intros [|a s]; simpl; try done.
  by rewrite IH.
Qed.

Lemma allAre_take p n s : allAre p s = true -> allAre p (JS.take n s) = true.
Proof.
  revert s. induction n as [|n IH]; intros [|a s]; simpl; try done.
  intros [-> H]%andb_prop. by apply IH.
Qed.

Lemma allAre_app p s t :
  allAre p s = true -> allAre p t = true -> allAre p (s +:+ t) = true.
Proof.
  induction s as [|a s IH]; [done|]. simpl.
  intros [-> H]%andb_prop Ht. by apply IH.
Qed.

Lemma includes_app c s t :
  JS.includes c (s +:+ t) = JS.includes c s || JS.includes c t.
Proof.
  induction s as [|a s IH]; [done|]. simpl. by rewrite IH, orb_assoc.
Qed.

Lemma startsWith_app p s : JS.startsWith p (p +:+ s) = true.
Proof.
  induction p as [|a p IH]; [done|]. simpl. by rewrite Ascii.eqb_refl, IH.
Qed.

Lemma endsWith_app p s : JS.endsWith p (s +:+ p) = true.
Proof.
  unfold JS.endsWith. rewrite length_app_str.
  replace (String.length s + String.length p - String.length p)
    with (String.length s) by lia.
  rewrite drop_app_length, String.eqb_refl. simpl. apply Nat.leb_le. lia.
Qed.

Lemma lastIndexOf_None c s :
  JS.includes c s = false -> JS.lastIndexOf c s = None.
Proof.
  induction s as [|a s IH]; [done|]. simpl.
  intros [-> H]%orb_false_elim. by rewrite IH.
Qed.

Lemma lastIndexOf_app c s t :
  JS.includes c t = false ->
  JS.lastIndexOf c (s +:+ String c t) = Some (String.length s).
Proof.
  intros Ht. induction s as [|a s IH]; simpl.
  - by rewrite lastIndexOf_None, Ascii.eqb_refl.
  - by rewrite IH.
Qed.

(** ** The name/hash generator *)

Lemma bytesLE_length n x : List.length (MD5.bytesLE n x) = n.
Proof. revert x. induction n as [|n IH]; intros x; simpl; [done|]. by rewrite IH. Qed.

Lemma bytesLE_range n x :
  Forall (fun b => (0 <= b < 256)%Z) (MD5.bytesLE n x).
Proof.
  revert x. induction n as [|n IH]; intros x; simpl; constructor; [|apply IH].
  change 255%Z with (Z.ones 8). rewrite Z.land_ones by lia.
  apply Z.mod_pos_bound. lia.
Qed.

Lemma hexDigit_isHexDigit (d : Z) :
  (0 <= d < 16)%Z -> isHexDigit (MD5.hexDigit d) = true.
Proof.
  intros Hd.
  assert (exists n : nat, (n < 16)%nat /\ d = Z.of_nat n) as (n & Hn & ->).
  { exists (Z.to_nat d). split; lia. }
  clear Hd. do 16 (destruct n as [|n]; [reflexivity|]). lia.
Qed.

Lemma hex_shape (bs : list Z) :
  Forall (fun b => (0 <= b < 256)%Z) bs ->
  String.length (MD5.hex bs) = 2 * List.length bs
  /\ allAre isHexDigit (MD5.hex bs) = true.
Proof.
  induction 1 as [|b bs Hb _ [IHl IHa]]; [done|]. split.
  - simpl. rewrite IHl. lia.
  - cbn [MD5.hex allAre]. rewrite IHa, !hexDigit_isHexDigit; [done| |].
    + change 15%Z with (Z.ones 4). rewrite Z.land_ones by lia.
      apply Z.mod_pos_bound. lia.
    + rewrite Z.shiftr_div_pow2 by lia. change (2 ^ 4)%Z with 16%Z.
      split; [apply Z.div_pos; lia|apply Z.div_lt_upper_bound; lia].
Qed.

Lemma digest_shape (msg : list Z) :
  List.length (MD5.digest msg) = 16
  /\ Forall (fun b => (0 <= b < 256)%Z) (MD5.digest msg).
Proof.
  unfold MD5.digest. cbv zeta. split.
  - by rewrite !length_app, !bytesLE_length.
  - repeat (apply Forall_app; split); apply bytesLE_range.
Qed.

Lemma md5_shape (str : string) :
  String.length (md5 str) = 8 /\ allAre isHexDigit (md5 str) = true.
Proof.
  destruct (digest_shape (MD5.utf8 str)) as [Hlen Hrange].
  destruct (hex_shape _ Hrange) as [Hl Ha].
  unfold md5, MD5.hexdigest. rewrite slice_0. split.
  - rewrite take_length, Hl, Hlen. reflexivity.
  - by apply allAre_take.
Qed.

Lemma hex_no_slash (s : string) :
  allAre isHexDigit s = true -> JS.includes "/" s = false.
Proof.
  induction s as [|a s IH]; [done|]. simpl.
  intros [Ha Hs]%andb_prop. rewrite (IH Hs), orb_false_r.
  destruct (Ascii.eqb_spec a "/") as [->|]; [discriminate Ha|done].
Qed.

Lemma md5_no_slash str : JS.includes "/" (md5 str) = false.
Proof. apply hex_no_slash, md5_shape. Qed.

(** X1. The short digest is always eight lower-case hexadecimal digits,
    whatever the string: the binding name [Com_] + digest is an
    identifier, and the name of a virtual file has a fixed shape and
    holds no slash. *)
Theorem md5_eight_hex_digits (str : string) :
  String.length (md5 str) = 8
  /\ allAre isHexDigit (md5 str) = true
  /\ JS.includes "/" (md5 str) = false.
Proof.
  destruct (md5_shape str) as [H8 Hhex].
  split; [exact H8|]. split; [exact Hhex|]. by apply hex_no_slash.
Qed.

(** ** Separators *)

Lemma normalizePath_cons a s :
  normalizePath (String a s)
  = String (if Ascii.eqb a "\" then "/"%char else a) (normalizePath s).
Proof. reflexivity. Qed.

Lemma normalizePath_no_backslash s : JS.includes "\" (normalizePath s) = false.
Proof.
  induction s as [|a s IH]; [done|].
  rewrite normalizePath_cons. cbn [JS.includes]. rewrite IH, orb_false_r.
  by destruct (Ascii.eqb a "\") eqn:E.
Qed.

(** X2. Every pattern [resolveId] hands to the glob is free of
    backslashes, for relative and for alias patterns alike, and
    [normalizePath] changes nothing in a path that it has normalized. *)
Theorem resolved_pattern_has_no_backslash
    (cwd : string) (getTsconfig : string -> option TsConfigResult)
    (options : Options) (source : string) (importer : option string)
    (st : State) (r : Resolved) :
  resolveRequest cwd getTsconfig options source importer st = Ready r ->
  JS.includes "\" (rResolvedPattern r) = false
  /\ normalizePath (rResolvedPattern r) = rResolvedPattern r.
Proof.
  intros Hr.
  assert (exists p, rResolvedPattern r = normalizePath p) as [p ->].
  { unfold resolveRequest in Hr. repeat case_match; simplify_eq; by eexists. }
  split; [apply normalizePath_no_backslash|].
  apply normalizePath_plain, normalizePath_no_backslash.
Qed.

Lemma resolved_pattern_has_no_backslash_witness :
  JS.includes "\" "/p/src/pages/shared/sub/*.jsx" = false
  /\ normalizePath "/p/src/pages/shared/sub/*.jsx" = "/p/src/pages/shared/sub/*.jsx".
Proof.
  apply (resolved_pattern_has_no_backslash Project.cwd Project.getTsconfig
           Project.options "dc:load:./shared\sub/*.jsx"
           (Some "/p/src/pages/a.astro") Project.start
           {| rClientDirective := Some "client:load";
              rPattern := "./shared\sub/*.jsx"; rIsPathAlias := false;
              rResolvedPattern := "/p/src/pages/shared/sub/*.jsx";
              rBaseDir := "/p/src/pages/shared\sub" |}).
  vm_compute. reflexivity.
Defined.

(** ** Display names *)

(** X3. The display name is the relative path cut at its last dot: a
    path [stem.ext] whose [ext] is not empty and holds no dot gives
    [stem] (also when [ext] holds a slash, the dot then being in a
    directory name, and when [stem] is empty, as for a dot-file), while a
    path without a dot or with a final dot is kept whole. *)
Theorem stripExtension_cuts_at_last_dot :
  (forall stem ext : string,
      ext <> EmptyString -> JS.includes "." ext = false ->
      JS.stripExtension (stem +:+ "." +:+ ext) = stem)
  /\ (forall s : string, JS.includes "." s = false -> JS.stripExtension s = s)
  /\ (forall s : string, JS.stripExtension (s +:+ ".") = s +:+ ".")
  /\ JS.stripExtension "forms/inputs/TextInput.vue" = "forms/inputs/TextInput"
  /\ JS.stripExtension "v1.2/Button" = "v1"
  /\ JS.stripExtension ".hidden" = EmptyString.
Proof.
  split; [|split; [|split; [|done]]].
  - intros stem ext Hne Hdot. unfold JS.stripExtension.
    change (stem +:+ "." +:+ ext) with (stem +:+ String "." ext).
    rewrite lastIndexOf_app by done.
    assert ((S (String.length stem) <? String.length (stem +:+ String "." ext))%nat
            = true) as ->.
    { apply Nat.ltb_lt. rewrite length_app_str. destruct ext; [done|]. simpl. lia. }
    apply take_app_length.
  - intros s Hs. unfold JS.stripExtension. by rewrite lastIndexOf_None.
  - intros s. unfold JS.stripExtension.
    change (s +:+ ".") with (s +:+ String "." EmptyString).
    rewrite lastIndexOf_app by done.
    assert ((S (String.length s) <? String.length (s +:+ String "." EmptyString))%nat
            = false) as ->; [|done].
    apply Nat.ltb_ge. rewrite length_app_str. simpl. lia.
Qed.

(** ** Alias and relative patterns *)

Lemma pathMatch_pathPart s segment pat :
  pathMatch s = Some (segment, pat) -> pathPart pat = true.
Proof.
  revert segment. induction s as [|c s IH]; intros segment; [done|].
  cbn [pathMatch].
  destruct (Ascii.eqb c ":" && pathPart s) eqn:Hhere.
  - intros [= <- <-]. by apply andb_prop in Hhere as [_ ?].
  - destruct (JS.isLineTerminator c); [done|].
    destruct (pathMatch s) as [[seg0 pat0]|]; [|done].
    intros [= <- <-]. by eapply IH.
Qed.

Lemma letterOrAt_not_dot_slash (c : ascii) :
  JS.isLetterOrAt c = true -> Ascii.eqb "." c = false /\ Ascii.eqb "/" c = false.
Proof.
  intros Hc. split.
  - destruct (Ascii.eqb_spec "." c) as [<-|]; [discriminate Hc|done].
  - destruct (Ascii.eqb_spec "/" c) as [<-|]; [discriminate Hc|done].
Qed.

(** X4. When a specifier has a directive segment, its pattern is taken
    as an alias exactly when it begins with a letter or an at sign: a
    bare path such as [components/x.vue] goes to the alias resolver and
    is not read relative to the importer. *)
Theorem split_pattern_is_alias_iff_letter (source default : string) :
  pathMatch (JS.sliceFrom (String.length DC_PREFIX) source) <> None ->
  let pattern := pattern (parseDcImport source default) in
  isAliasPattern pattern = JS.headIs JS.isLetterOrAt pattern
  /\ JS.noLineTerminator pattern = true.
Proof.
  intros Hm pattern.
  assert (pathPart pattern = true) as Hpart.
  { unfold pattern, parseDcImport.
    destruct (pathMatch _) as [[seg pat]|] eqn:Heq; [|done].
    apply pathMatch_pathPart in Heq. by repeat case_match. }
  unfold pathPart in Hpart. apply andb_prop in Hpart as [Hstart Hlt].
  split; [|done]. unfold isAliasPattern.
  destruct (JS.headIs JS.isLetterOrAt pattern) eqn:Hhead.
  - destruct pattern as [|c rest]; [done|].
    apply letterOrAt_not_dot_slash in Hhead as [Hdot Hslash].
    cbn [JS.startsWith]. by rewrite Hdot, Hslash.
  - rewrite orb_false_r in Hstart.
    by destruct (JS.startsWith "/" pattern), (JS.startsWith "./" pattern),
         (JS.startsWith "../" pattern).
Qed.

Lemma split_pattern_is_alias_iff_letter_witness :
  isAliasPattern "components/buttons/*.vue" = true
  /\ JS.noLineTerminator "components/buttons/*.vue" = true.
Proof.
  apply (split_pattern_is_alias_iff_letter "dc:load:components/buttons/*.vue" "load").
  discriminate.
Defined.

(** ** The glob base and the rest of the pattern *)


Lemma lastIndexOf_lt c s i :
  JS.lastIndexOf c s = Some i -> i < String.length s.
Proof.
  revert i. induction s as [|a s IH]; intros i; simpl; [done|].
  destruct (JS.lastIndexOf c s) as [j|].
  - intros [= <-]. specialize (IH j eq_refl). lia.
  - destruct (Ascii.eqb a c); [|done]. intros [= <-]. lia.
Qed.

Lemma take_prefix n s : exists rest, s = JS.take n s +:+ rest.
Proof. exists (JS.drop n s). by rewrite take_drop. Qed.

(** X5. The glob base is either the single dot, when no slash stands
    before the first glob character, or a part of the pattern that a
    slash follows. For an alias pattern the orchestrator takes the rest
    of the pattern by the length of the base: with a slash the base and
    the rest give back the pattern; with the dot the rest is the pattern
    without its first character. *)
Theorem getGlobBase_splits_pattern (pattern : string) :
  let patternBase := getGlobBase pattern in
  let globPart := JS.sliceFrom (String.length patternBase) pattern in
  (exists rest : string,
      pattern = patternBase +:+ "/" +:+ rest
      /\ globPart = "/" +:+ rest
      /\ patternBase +:+ globPart = pattern
      /\ noneIs isGlobChar patternBase = true)
  \/ (patternBase = "."
      /\ noneIs (fun c => Ascii.eqb c "/")
           (JS.take (firstIndex isGlobChar pattern) pattern) = true
      /\ globPart = JS.drop 1 pattern).
Proof.
  intros patternBase globPart. unfold globPart, patternBase, getGlobBase.
  rewrite firstGlobIndex_firstIndex, slice_0.
  set (literal := JS.take _ pattern).
  pose proof (lastIndexOf_split "/" literal) as H.
  pose proof (lastIndexOf_lt "/" literal) as Hlt.
  destruct (JS.lastIndexOf "/" literal) as [i|]; [left|right].
  - destruct H as [H1 H2]. rewrite slice_0. specialize (Hlt i eq_refl).
    destruct (take_prefix (firstIndex isGlobChar pattern) pattern) as [tail Htail].
    fold literal in Htail.
    exists (JS.drop (S i) literal +:+ tail).
    assert (pattern = JS.take i literal +:+ "/" +:+ JS.drop (S i) literal +:+ tail)
      as Hpat.
    { rewrite Htail at 1. rewrite H1 at 1.
      by rewrite app_assoc'. }
    assert (noneIs isGlobChar (JS.take i literal) = true) as Hnone.
    { pose proof (take_firstIndex_noneIs isGlobChar pattern) as Hl.
      fold literal in Hl. clearbody literal. clear -Hl.
      revert i. induction literal as [|a l IH]; intros [|i]; simpl in *; try done.
      apply andb_prop in Hl as [-> Hl]. by apply IH. }
    assert (String.length (JS.take i literal) = i) as Hlen.
    { rewrite take_length. lia. }
    unfold JS.sliceFrom.
    assert (JS.drop (String.length (JS.take i literal)) pattern
            = "/" +:+ JS.drop (S i) literal +:+ tail) as Hdrop.
    { rewrite Hpat at 1. by rewrite drop_app_length. }
    split; [exact Hpat|]. split; [exact Hdrop|]. split; [|exact Hnone].
    rewrite Hdrop. by rewrite <-Hpat.
  - split; [done|]. split; [|done].
    clearbody literal. induction literal as [|a l IH]; [done|].
    simpl in H. apply orb_false_elim in H as [Ha Hl]. simpl. by rewrite Ha, IH.
Qed.

Lemma firstIndex_app p s t :
  noneIs p s = true -> firstIndex p (s +:+ t) = String.length s + firstIndex p t.
Proof.
  induction s as [|a s IH]; [done|]. simpl.
  intros [Ha Hs]%andb_prop. apply negb_true_iff in Ha. by rewrite Ha, IH.
Qed.

Lemma stripFromStar_cons a s :
  JS.stripFromStar (String a s)
  = if (JS.startsWith "/*" (String a s)
        && JS.noLineTerminator (JS.drop 2 (String a s)))
       || (Ascii.eqb a "*" && JS.noLineTerminator s)
    then EmptyString
    else String a (JS.stripFromStar s).
Proof. reflexivity. Qed.

Lemma stripFromStar_dir dir rest :
  noneIs isGlobChar dir = true -> JS.noLineTerminator rest = true ->
  JS.stripFromStar (dir +:+ "/*" +:+ rest) = dir.
Proof.
  intros Hdir Hrest. induction dir as [|a dir IH].
  - change (EmptyString +:+ "/*" +:+ rest) with (String "/" (String "*" rest)).
    rewrite stripFromStar_cons.
    change (JS.startsWith "/*" (String "/" (String "*" rest))) with true.
    change (JS.drop 2 (String "/" (String "*" rest))) with rest.
    by rewrite Hrest.
  - simpl in Hdir. apply andb_prop in Hdir as [Ha Hdir].
    apply negb_true_iff in Ha. specialize (IH Hdir).
    rewrite app_cons, stripFromStar_cons.
    assert (Ascii.eqb a "*" = false) as ->.
    { unfold isGlobChar in Ha. by destruct (Ascii.eqb a "*"). }
    assert (JS.startsWith "/*" (String a (dir +:+ "/*" +:+ rest)) = false) as ->.
    { destruct dir as [|b dir].
      - change (Ascii.eqb "/" a && (Ascii.eqb "*" "/" && true) = false).
        by rewrite andb_false_r.
      - change (Ascii.eqb "/" a && (Ascii.eqb "*" b && true) = false).
        simpl in Hdir. apply andb_prop in Hdir as [Hb _].
        apply negb_true_iff in Hb. unfold isGlobChar in Hb.
        rewrite (Ascii.eqb_sym "*" b).
        destruct (Ascii.eqb b "*"); [done|]. by rewrite andb_false_r. }
    by rewrite IH.
Qed.

Lemma getGlobBase_dir dir rest :
  noneIs isGlobChar dir = true -> getGlobBase (dir +:+ "/*" +:+ rest) = dir.
Proof.
  intros Hdir. unfold getGlobBase.
  rewrite firstGlobIndex_firstIndex, slice_0.
  assert (dir +:+ "/*" +:+ rest = (dir +:+ "/") +:+ String "*" rest) as ->
    by by rewrite app_assoc'.
  assert (noneIs isGlobChar (dir +:+ "/") = true) as Hlit.
  { clear -Hdir. induction dir as [|a dir IH]; [done|]. simpl in *.
    apply andb_prop in Hdir as [-> Hdir]. by apply IH. }
  rewrite firstIndex_app by done. cbn [firstIndex isGlobChar].
  change (isGlobChar "*") with true. cbv iota. rewrite Nat.add_0_r.
  rewrite take_app_length.
  change (dir +:+ "/") with (dir +:+ String "/" EmptyString).
  rewrite lastIndexOf_app by done. rewrite slice_0. apply take_app_length.
Qed.

(** X6. In the import path of an alias pattern the synthesizer keeps
    what stands before the first star of the pattern after which no line
    terminator follows, the slash before it dropped. When the pattern is
    a directory free of glob characters followed by [/*] and a rest
    without line terminator, this is the glob base that the alias
    resolver was given. When another glob character comes before the
    first star the two differ, and the import path keeps that glob
    character; and when a line terminator follows the first star the
    pattern is cut at a later star, or not at all. *)
Theorem alias_import_directory_is_glob_base (dir rest : string) :
  noneIs isGlobChar dir = true ->
  JS.noLineTerminator rest = true ->
  JS.stripFromStar (dir +:+ "/*" +:+ rest) = dir
  /\ getGlobBase (dir +:+ "/*" +:+ rest) = dir
  /\ JS.stripFromStar "@/icons/[a-m]*.vue" = "@/icons/[a-m]"
  /\ getGlobBase "@/icons/[a-m]*.vue" = "@/icons"
  /\ JS.stripFromStar ("a/*b" +:+ JS.nl +:+ "c/*d") = "a/*b" +:+ JS.nl +:+ "c"
  /\ getGlobBase ("a/*b" +:+ JS.nl +:+ "c/*d") = "a"
  /\ JS.stripFromStar ("a/*b" +:+ JS.nl) = "a/*b" +:+ JS.nl.
Proof.
  intros Hdir Hrest.
  split; [by apply stripFromStar_dir|]. split; [by apply getGlobBase_dir|done].
Qed.

Lemma alias_import_directory_is_glob_base_witness :
  noneIs isGlobChar "@/components" = true
  /\ JS.noLineTerminator "*/*.vue" = true
  /\ JS.stripFromStar ("@/components" +:+ "/*" +:+ "*/*.vue") = "@/components"
  /\ getGlobBase ("@/components" +:+ "/*" +:+ "*/*.vue") = "@/components".
Proof.
  split; [reflexivity|]. split; [reflexivity|].
  destruct (alias_import_directory_is_glob_base "@/components" "*/*.vue")
    as (Hstrip & Hbase & _); [reflexivity..|].
  split; [exact Hstrip|exact Hbase].
Defined.

(** ** Outcomes of a resolution *)

(** X7. [resolveId] returns an identity exactly when the specifier has
    the prefix, an importer is given, an alias pattern resolves to a
    non-empty base and the glob matches a file. A resolution that
    returns an identity warns of nothing; one that returns null for a
    prefixed specifier puts exactly one console warning in front of the
    trace and leaves configuration, project root and cache as they
    were. *)
Theorem resolveId_succeeds_iff
    (cwd : string) (fg : string -> list string)
    (getTsconfig : string -> option TsConfigResult) (options : Options)
    (source : string) (importer : option string) (st : State) :
  let parsed := parseDcImport source (defaultClientDirective options) in
  let result := resolveId cwd fg getTsconfig options source importer st in
  ((exists r, resolveRequest cwd getTsconfig options source importer st = Ready r)
   <-> JS.startsWith DC_PREFIX source = true
       /\ truthy importer = true
       /\ (isAliasPattern (pattern parsed) = true ->
           truthy (resolveAlias cwd getTsconfig (getGlobBase (pattern parsed))
                     (viteConfig st) (projectRoot st)) = true))
  /\ (is_Some result.1
      <-> exists r,
            resolveRequest cwd getTsconfig options source importer st = Ready r
            /\ fg (rResolvedPattern r) <> [])
  /\ (is_Some result.1 ->
      exists events,
        trace result.2 = events ++ trace st /\ forallb isQuiet events = true)
  /\ (result.1 = None -> JS.startsWith DC_PREFIX source = true ->
      exists message,
        trace result.2 = ConsoleWarn message :: trace st
        /\ viteConfig result.2 = viteConfig st
        /\ projectRoot result.2 = projectRoot st
        /\ codeCache result.2 = codeCache st).
Proof.
  intros parsed result. split; [|split; [|split]].
  - unfold resolveRequest. fold parsed. unfold isAliasPattern.
    destruct (JS.startsWith DC_PREFIX source); cbn [negb].
    2: { split; [by intros [? ?]|by intros [? _]]. }
    destruct (truthy importer); cbn [negb].
    2: { split; [by intros [? ?]|by intros (_ & ? & _)]. }
    cbv zeta.
    destruct (negb (JS.startsWith "./" (pattern parsed))
              && negb (JS.startsWith "../" (pattern parsed))
              && negb (JS.startsWith "/" (pattern parsed))).
    + destruct (truthy (resolveAlias _ _ _ _ _)); cbn [negb].
      * split; [done|]. intros _. by eexists.
      * split; [by intros [? ?]|]. intros (_ & _ & H). by specialize (H eq_refl).
    + split; [done|]. intros _. by eexists.
  - unfold result, resolveId.
    destruct (resolveRequest cwd getTsconfig options source importer st) as [| |r].
    + split; [by intros [? ?]|by intros (? & ? & _)].
    + split; [by intros [? ?]|by intros (? & ? & _)].
    + destruct (fg (rResolvedPattern r)) as [|f files] eqn:Hf.
      * split; [by intros [? ?]|]. intros (r' & [= <-] & Hne). by rewrite Hf in Hne.
      * rewrite resolveFiles_identity by done. split; [|by eexists].
        intros _. exists r. split; [done|]. by rewrite Hf.
  - unfold result, resolveId.
    destruct (resolveRequest cwd getTsconfig options source importer st) as [| |r];
      [by intros [? ?]..|].
    unfold resolveFiles.
    destruct (List.length (fg (rResolvedPattern r)) =? 0)%nat; [by intros [? ?]|].
    cbv zeta. destruct (codeCache st !! _); intros _.
    + by exists [].
    + cbn [snd trace]. destruct (optLogger options).
      * by eexists [_; _].
      * by eexists [_].
  - unfold result, resolveId. intros Hnone Hprefix.
    destruct (resolveRequest cwd getTsconfig options source importer st)
      as [| |r] eqn:Hr.
    + unfold resolveRequest in Hr. rewrite Hprefix in Hr. cbn [negb] in Hr.
      by repeat case_match.
    + by eexists.
    + destruct (fg (rResolvedPattern r)) as [|f files] eqn:Hf.
      * unfold resolveFiles. cbn [List.length Nat.eqb]. by eexists.
      * by rewrite resolveFiles_identity in Hnone.
Qed.

(** ** The integration and the default directive *)

Lemma pathMatch_no_colon s : JS.includes ":" s = false -> pathMatch s = None.
Proof.
  induction s as [|c s IH]; [done|]. cbn [JS.includes pathMatch].
  intros [-> Hs]%orb_false_elim. cbn [andb].
  destruct (JS.isLineTerminator c); [done|]. by rewrite IH.
Qed.

(** X8. The plugin registered by the integration parses the short form
    [dc:] + pattern, for a pattern without a colon, with the directive
    the integration was configured with, [load] when it was given none,
    and leaves the pattern as it is; a specifier with a directive segment
    is parsed the same whatever the default. The integration reports the
    default to the logger exactly when it is not [load]. *)
Theorem integration_default_directive
    (defaultOption : option string) (srcDirPath pattern : string) :
  JS.includes ":" pattern = false ->
  let configured := match defaultOption with Some d => d | None => "load" end in
  let setup := dynamicComponentIntegration defaultOption srcDirPath in
  parseDcImport ("dc:" +:+ pattern) (defaultClientDirective setup.2)
  = {| clientDirective := Some ("client:" +:+ configured); pattern := pattern |}
  /\ (forall source d1 d2,
         pathMatch (JS.sliceFrom (String.length DC_PREFIX) source) <> None ->
         parseDcImport source d1 = parseDcImport source d2)
  /\ (setup.1 = ["Dynamic component integration enabled"] <-> configured = "load")
  /\ (configured <> "load" ->
      setup.1 = ["Dynamic component integration enabled";
                 "Default client directive: " +:+ configured])
  /\ optLogger setup.2 = true
  /\ srcDir setup.2 = (if Path.nonEmpty srcDirPath then srcDirPath else "src").
Proof.
  intros Hcolon configured setup.
  assert (defaultClientDirective setup.2 = configured) as Hdefault by done.
  split.
  { rewrite Hdefault. unfold parseDcImport.
    change (JS.sliceFrom (String.length DC_PREFIX) ("dc:" +:+ pattern)) with pattern.
    by rewrite pathMatch_no_colon. }
  split.
  { intros source d1 d2 Hm. unfold parseDcImport.
    by destruct (pathMatch _) as [[? ?]|]. }
  assert (srcDir setup.2 = (if Path.nonEmpty srcDirPath then srcDirPath else "src"))
    as Hsrc.
  { unfold srcDir. cbn [setup dynamicComponentIntegration snd optSrcDir truthy
                          JS.interpolate]. by destruct (Path.nonEmpty srcDirPath). }
  unfold setup, dynamicComponentIntegration in *. cbv zeta. fold configured.
  cbn [fst snd optLogger].
  destruct (String.eqb_spec configured "load") as [Heq|Hne]; cbn [negb].
  - split; [done|]. split; [by intros ?|]. by split.
  - split; [split; [done|by intros ?]|]. split; [done|]. by split.
Qed.

Lemma integration_default_directive_witness :
  parseDcImport ("dc:" +:+ "./icons/*.astro")
    (defaultClientDirective (dynamicComponentIntegration (Some "idle") "/p/src/").2)
  = {| clientDirective := Some "client:idle"; pattern := "./icons/*.astro" |}.
Proof.
  destruct (integration_default_directive (Some "idle") "/p/src/" "./icons/*.astro")
    as [Hparse _]; [reflexivity|exact Hparse].
Defined.

(** ** The last segment of a resolved path *)

Lemma list_ascii_app s t :
  list_ascii_of_string (s +:+ t) = list_ascii_of_string s ++ list_ascii_of_string t.
Proof. induction s as [|a s IH]; [done|]. simpl. by rewrite IH. Qed.

Lemma list_ascii_plain s :
  JS.includes "/" s = false ->
  Forall (fun c => Path.isSlash c = false) (list_ascii_of_string s).
Proof.
  induction s as [|a s IH]; [constructor|]. cbn [JS.includes].
  intros [Ha Hs]%orb_false_elim. constructor; [exact Ha|by apply IH].
Qed.

Lemma takeWhile_stop (cs rest : list ascii) :
  Forall (fun c => Path.isSlash c = false) cs ->
  Path.takeWhile (fun c => negb (Path.isSlash c)) (cs ++ "/"%char :: rest) = cs.
Proof. induction 1 as [|c cs Hc _ IH]; simpl; [done|]. by rewrite Hc, IH. Qed.

Lemma takeWhile_all (cs : list ascii) :
  Forall (fun c => Path.isSlash c = false) cs ->
  Path.takeWhile (fun c => negb (Path.isSlash c)) cs = cs.
Proof. induction 1 as [|c cs Hc _ IH]; simpl; [done|]. by rewrite Hc, IH. Qed.

Lemma dropWhile_plain (cs rest : list ascii) :
  cs <> [] -> Forall (fun c => Path.isSlash c = false) cs ->
  Path.dropWhile Path.isSlash (cs ++ rest) = cs ++ rest.
Proof. destruct 2 as [|c cs Hc _]; [done|]. simpl. by rewrite Hc. Qed.

(** The base name of a path that ends in a slash and a name is the
    name. *)
Lemma basename_last dir name :
  name <> EmptyString -> JS.includes "/" name = false ->
  Path.basename (dir +:+ String "/" name) = name
  /\ Path.basename name = name.
Proof.
  intros Hne Hplain.
  pose proof (list_ascii_plain name Hplain) as Hcs.
  assert (list_ascii_of_string name <> []) as Hcs' by by destruct name.
  apply Forall_rev in Hcs.
  assert (rev (list_ascii_of_string name) <> []) as Hrev.
  { intros H. apply (f_equal (@rev ascii)) in H. by rewrite rev_involutive in H. }
  split; unfold Path.basename.
  - rewrite list_ascii_app. cbn [list_ascii_of_string]. rewrite rev_app_distr.
    cbn [rev]. rewrite <-app_assoc. cbn [app].
    rewrite (dropWhile_plain _ ("/"%char :: rev (list_ascii_of_string dir)) Hrev Hcs).
    rewrite (takeWhile_stop _ (rev (list_ascii_of_string dir)) Hcs).
    by rewrite rev_involutive, string_of_list_ascii_of_string.
  - rewrite <-(app_nil_r (rev (list_ascii_of_string name))).
    rewrite (dropWhile_plain _ [] Hrev Hcs), app_nil_r.
    rewrite (takeWhile_all _ Hcs).
    by rewrite rev_involutive, string_of_list_ascii_of_string.
Qed.

Lemma resolveLoop_acc (paths : list string) (acc : string) :
  exists (prefix : string) (absolute : bool),
    Path.resolveLoop paths acc = (prefix +:+ acc, absolute)
    /\ (prefix = EmptyString \/ exists before, prefix = before +:+ "/").
Proof.
  revert acc. induction paths as [|path paths IH]; intros acc.
  - exists EmptyString, false. split; [done|by left].
  - cbn [Path.resolveLoop].
    destruct (String.eqb path EmptyString); [apply IH|].
    destruct (Path.isAbsolute path).
    + exists (path +:+ "/"), true. split; [by rewrite app_assoc'|]. right. by eexists.
    + destruct (IH (path +:+ "/" +:+ acc)) as (prefix & absolute & -> & _).
      exists ((prefix +:+ path) +:+ "/"), absolute.
      split; [by rewrite !app_assoc'|]. right. by eexists.
Qed.

Lemma join_snoc sep (pieces : list string) piece :
  pieces <> [] ->
  JS.join sep (pieces ++ [piece]) = JS.join sep pieces +:+ sep +:+ piece.
Proof.
  induction pieces as [|x pieces IH]; [done|]. intros _.
  destruct pieces as [|y pieces]; [done|].
  change (JS.join sep ((x :: y :: pieces) ++ [piece]))
    with (x +:+ sep +:+ JS.join sep ((y :: pieces) ++ [piece])).
  rewrite IH by done.
  change (JS.join sep (x :: y :: pieces))
    with (x +:+ sep +:+ JS.join sep (y :: pieces)).
  by rewrite !app_assoc'.
Qed.

Lemma normalizeStep_plainName allow res name :
  plainName name -> Path.normalizeStep allow res name = name :: res.
Proof.
  intros (Hreal & _ & Hdd). unfold Path.normalizeStep.
  unfold realSegment, Path.nonEmpty in Hreal.
  destruct (String.eqb name EmptyString); [done|].
  destruct (String.eqb name "."); [done|]. by rewrite Hdd.
Qed.

Lemma plainName_relative name : plainName name -> Path.isAbsolute name = false.
Proof.
  intros (_ & Hplain & _). destruct name as [|c name]; [done|].
  cbn [JS.includes] in Hplain. apply orb_false_elim in Hplain as [Hc _].
  unfold Path.isAbsolute. cbn [JS.startsWith].
  by rewrite Ascii.eqb_sym, Hc.
Qed.

Lemma plainName_nonEmpty name : plainName name -> name <> EmptyString.
Proof. by intros (Hreal & _) ->. Qed.

(** [path.resolve] ends with its last argument when that is a plain
    name. *)
Lemma resolve_basename cwd (args : list string) name :
  plainName name -> Path.basename (Path.resolve cwd (args ++ [name])) = name.
Proof.
  intros Hname.
  pose proof (plainName_nonEmpty _ Hname) as Hne.
  pose proof (plainName_relative _ Hname) as Hrel.
  destruct Hname as (Hreal & Hplain & Hdd).
  assert (plainName name) as Hname by done.
  unfold Path.resolve. rewrite rev_app_distr. cbn [rev app Path.resolveLoop].
  destruct (String.eqb_spec name EmptyString) as [|_]; [done|]. rewrite Hrel.
  destruct (resolveLoop_acc (rev args ++ [cwd]) (name +:+ "/" +:+ EmptyString))
    as (prefix & absolute & -> & Hprefix).
  assert (exists kept,
             Path.normalizeString (prefix +:+ name +:+ "/" +:+ EmptyString)
               (negb absolute)
             = JS.join "/" (kept ++ [name])) as [kept ->].
  { unfold Path.normalizeString, Path.normalizeSegments, Path.segments.
    destruct Hprefix as [->|[before ->]].
    - exists []. change (EmptyString +:+ name +:+ "/" +:+ EmptyString)
        with (name +:+ String "/" EmptyString).
      rewrite split_app_sep, split_plain by done. cbn [app foldl JS.split].
      rewrite (normalizeStep_plainName _ [] name Hname). reflexivity.
    - eexists.
      assert ((before +:+ "/") +:+ name +:+ "/" +:+ EmptyString
              = before +:+ String "/" (name +:+ String "/" EmptyString)) as ->
        by by rewrite !app_assoc'.
      rewrite !split_app_sep, (split_plain _ name Hplain).
      rewrite foldl_app. cbn [app foldl JS.split].
      rewrite (normalizeStep_plainName _ _ name Hname).
      cbn [Path.normalizeStep String.eqb orb rev]. reflexivity. }
  assert (exists dir, JS.join "/" (kept ++ [name]) = name
                      \/ JS.join "/" (kept ++ [name]) = dir +:+ String "/" name)
    as [dir Hjoin].
  { destruct kept as [|k kept]; [exists EmptyString; by left|].
    exists (JS.join "/" (k :: kept)). right. by rewrite join_snoc. }
  assert (JS.join "/" (kept ++ [name]) <> EmptyString) as Hp.
  { destruct Hjoin as [->| ->]; [done|]. by destruct dir. }
  destruct (String.eqb_spec (JS.join "/" (kept ++ [name])) EmptyString); [done|].
  destruct absolute.
  - destruct Hjoin as [->| ->].
    + change ("/" +:+ name) with (EmptyString +:+ String "/" name).
      by apply basename_last.
    + rewrite <-app_assoc'. by apply basename_last.
  - destruct Hjoin as [->| ->]; by apply basename_last.
Qed.

Lemma virtual_name_plain hash :
  JS.includes "/" hash = false -> plainName ("_virtual_dc_" +:+ hash +:+ ".astro").
Proof.
  intros Hhash. split; [done|]. split; [|done].
  by rewrite !includes_app, Hhash.
Qed.

Lemma virtualFilePathOf_isVirtualId cwd options root (files : list string) :
  isVirtualId (virtualFilePathOf cwd options root files) = true.
Proof.
  unfold isVirtualId, virtualFilePathOf.
  change [root; srcDir options; "_generate_";
          "_virtual_dc_" +:+ filesHash cwd options root files +:+ ".astro"]
    with ([root; srcDir options; "_generate_"]
          ++ ["_virtual_dc_" +:+ filesHash cwd options root files +:+ ".astro"]).
  rewrite resolve_basename by apply virtual_name_plain, md5_no_slash.
  rewrite startsWith_app. cbn [andb].
  rewrite <-app_assoc'. apply endsWith_app.
Qed.

(** ** The cache between [resolveId] and [load] *)

Lemma generated_nonEmpty cwd pattern baseDir directive components alias srcDirAbsolute :
  truthy (Some (generateVirtualAstroComponent cwd pattern baseDir directive
                  components alias srcDirAbsolute)) = true.
Proof. reflexivity. Qed.

Lemma cacheSound_resolveFiles cwd options r (files : list string) st :
  cacheSound st -> cacheSound (resolveFiles cwd options r files st).2.
Proof.
  intros Hst. unfold resolveFiles. destruct files as [|f files]; [exact Hst|].
  cbn [List.length Nat.eqb]. cbv zeta.
  fold (virtualFilePathOf cwd options (projectRoot st) (f :: files)).
  destruct (codeCache st !! _) as [cached|] eqn:Hc; [exact Hst|].
  intros id code. cbn [snd codeCache].
  destruct (decide (id = virtualFilePathOf cwd options (projectRoot st) (f :: files)))
    as [->|Hid].
  - rewrite lookup_insert_eq. intros [= <-].
    split; [apply virtualFilePathOf_isVirtualId|apply generated_nonEmpty].
  - rewrite lookup_insert_ne by congruence. apply Hst.
Qed.

Lemma cacheSound_call cwd fg getTsconfig options st c :
  cacheSound st -> cacheSound (call cwd fg getTsconfig options st c).
Proof.
  intros H. destruct c as [config|source importer|id]; simpl.
  - exact H.
  - unfold resolveId.
    destruct (resolveRequest cwd getTsconfig options source importer st);
      [exact H|exact H|by apply cacheSound_resolveFiles].
  - unfold load. repeat case_match; exact H.
Qed.

Lemma cacheSound_run cwd fg getTsconfig options calls :
  cacheSound (run cwd fg getTsconfig options calls).
Proof.
  unfold run.
  assert (cacheSound (initialState cwd)) as Hinit
    by (intros id code; cbn [initialState codeCache]; by rewrite lookup_empty).
  revert Hinit. generalize (initialState cwd).
  induction calls as [|c calls IH]; intros st Hst; [exact Hst|].
  simpl. by apply IH, cacheSound_call.
Qed.

Lemma cacheKept_call cwd fg getTsconfig options st c :
  cacheKept st (call cwd fg getTsconfig options st c).
Proof.
  destruct c as [config|source importer|id]; simpl.
  - by intros id code.
  - unfold resolveId.
    destruct (resolveRequest cwd getTsconfig options source importer st) as [|w|r];
      [by intros id code|by intros id code|].
    destruct (fg (rResolvedPattern r)) as [|f files] eqn:Hfiles.
    + by intros id code.
    + exact (proj2 (proj2 (resolveFiles_cached cwd options r (f :: files) st
                             ltac:(done)))).
  - unfold load. repeat case_match; by intros id' code.
Qed.

Lemma cacheKept_calls cwd fg getTsconfig options (calls : list Call) st :
  cacheKept st (foldl (call cwd fg getTsconfig options) st calls).
Proof.
  revert st. induction calls as [|c calls IH]; intros st; [by intros id code|].
  intros id code Hid. simpl. apply IH.
  by apply (cacheKept_call cwd fg getTsconfig options st c).
Qed.

Lemma load_cached id code st :
  isVirtualId id = true -> truthy (Some code) = true ->
  codeCache st !! id = Some code -> load id st = (Some code, st).
Proof.
  unfold isVirtualId, load. intros [-> ->]%andb_prop Hcode ->.
  cbn [negb orb]. by rewrite Hcode.
Qed.

Lemma load_Some id code st st' :
  load id st = (Some code, st') ->
  isVirtualId id = true /\ truthy (Some code) = true
  /\ codeCache st !! id = Some code /\ st' = st.
Proof.
  unfold isVirtualId, load.
  destruct (JS.startsWith "_virtual_dc_" (Path.basename id)); [|done].
  destruct (JS.endsWith ".astro" (Path.basename id)); [|done].
  cbn [negb orb]. destruct (codeCache st !! id) as [cached|] eqn:Hc; [|done].
  destruct (truthy (Some cached)) eqn:Ht; [|done].
  intros [= -> ->]. done.
Qed.

(** C1. The directive of a later import is dropped. Of two resolutions
    on one plugin whose globs match the same files, the first, finding
    no module for the file list in the cache, synthesizes one with its
    own directive; the second returns the same identity whatever its
    directive, synthesizes nothing, and [load] serves it the text of the
    first. So [dc:idle:./shared/*.jsx], imported after
    [dc:load:./shared/*.jsx], is served components with [client:load],
    where its own directive is [client:idle]. *)
Theorem later_directive_is_dropped :
  (forall (cwd : string) (fg : string -> list string)
          (getTsconfig : string -> option TsConfigResult) (options : Options)
          (source1 source2 : string) (importer1 importer2 : option string)
          (r1 r2 : Resolved) (st : State),
      let first := resolveId cwd fg getTsconfig options source1 importer1 st in
      let id :=
        virtualFilePathOf cwd options (projectRoot st) (fg (rResolvedPattern r1)) in
      resolveRequest cwd getTsconfig options source1 importer1 st = Ready r1 ->
      resolveRequest cwd getTsconfig options source2 importer2 first.2 = Ready r2 ->
      fg (rResolvedPattern r1) <> [] ->
      JS.sort (fg (rResolvedPattern r1)) = JS.sort (fg (rResolvedPattern r2)) ->
      codeCache st !! id = None ->
      first.1 = Some id
      /\ resolveId cwd fg getTsconfig options source2 importer2 first.2
         = (Some id, first.2)
      /\ load id first.2
         = (Some (generateVirtualAstroComponent cwd (rPattern r1) (rBaseDir r1)
                    (rClientDirective r1)
                    (componentOf cwd (rBaseDir r1) <$> fg (rResolvedPattern r1))
                    (rIsPathAlias r1)
                    (Path.resolve cwd [projectRoot st; srcDir options])),
            first.2))
  /\ (let first :=
        resolveId Project.cwd Project.fg Project.getTsconfig Project.options
          "dc:load:./shared/*.jsx" (Some "/p/src/pages/a.astro") Project.start in
      let second :=
        resolveId Project.cwd Project.fg Project.getTsconfig Project.options
          "dc:idle:./shared/*.jsx" (Some "/p/src/pages/b.astro") first.2 in
      let id := "/p/src/_generate_/_virtual_dc_33d26c54.astro" in
      clientDirective (parseDcImport "dc:idle:./shared/*.jsx" "load")
      = Some "client:idle"
      /\ first.1 = Some id
      /\ second = (Some id, first.2)
      /\ (load id second.2).1
         = Some ("---" +:+ JS.nl
                 +:+ "import Com_cd0fde9e from " +:+ JS.dq
                 +:+ "../pages/shared/Card.jsx" +:+ JS.dq +:+ ";" +:+ JS.nl
                 +:+ "import Com_23b61209 from " +:+ JS.dq
                 +:+ "../pages/shared/Badge.jsx" +:+ JS.dq +:+ ";" +:+ JS.nl
                 +:+ JS.nl
                 +:+ "interface Props {" +:+ JS.nl
                 +:+ "    comp: " +:+ JS.dq +:+ "Card" +:+ JS.dq +:+ " | "
                 +:+ JS.dq +:+ "Badge" +:+ JS.dq +:+ ";" +:+ JS.nl
                 +:+ "    [key: string]: any;" +:+ JS.nl
                 +:+ "}" +:+ JS.nl
                 +:+ JS.nl
                 +:+ "const { comp, ...rest } = Astro.props;" +:+ JS.nl
                 +:+ "---" +:+ JS.nl
                 +:+ JS.nl
                 +:+ "{ Astro.props.comp === " +:+ JS.dq +:+ "Card" +:+ JS.dq
                 +:+ " && <Com_cd0fde9e client:load {...rest} /> }" +:+ JS.nl
                 +:+ "{ Astro.props.comp === " +:+ JS.dq +:+ "Badge" +:+ JS.dq
                 +:+ " && <Com_23b61209 client:load {...rest} /> }" +:+ JS.nl)).
Proof.
  split.
  - intros cwd fg getTsconfig options source1 source2 importer1 importer2 r1 r2 st
      first id Hr1 Hr2 Hne Hsort Hmiss.
    apply sort_eq_Permutation in Hsort as Hperm.
    assert (fg (rResolvedPattern r2) <> []) as Hne2.
    { intros Hnil. rewrite Hnil in Hperm. by apply Permutation_nil_r in Hperm. }
    assert (first = resolveFiles cwd options r1 (fg (rResolvedPattern r1)) st)
      as Hfirst by (unfold first, resolveId; by rewrite Hr1).
    assert (virtualFilePathOf cwd options (projectRoot st) (fg (rResolvedPattern r2))
            = id) as Hid.
    { unfold id, virtualFilePathOf. by rewrite (filesHash_Permutation _ _ _ _ _ Hperm). }
    destruct (resolveFiles_miss cwd options r1 _ st Hne Hmiss)
      as (Hsome & Hcache & _ & Hroot & _).
    rewrite <-Hfirst in Hsome, Hcache, Hroot. fold id in Hsome, Hcache.
    split; [exact Hsome|]. split.
    + unfold resolveId. rewrite Hr2, <-Hid, <-Hroot.
      apply resolveFiles_hit; [done|]. rewrite Hroot, Hid, Hcache.
      by rewrite lookup_insert_eq.
    + apply load_cached;
        [apply virtualFilePathOf_isVirtualId|apply generated_nonEmpty|].
      by rewrite Hcache, lookup_insert_eq.
  - cbv zeta. split; [reflexivity|]. split; [vm_compute; reflexivity|].
    split; vm_compute; reflexivity.
Qed.

(** X9. Whatever calls a plugin has seen, an identity that [resolveId]
    returns is one [load] serves: its file name is that of a virtual
    file, and [load] on it, right away or after any further calls,
    returns one and the same non-empty text, leaves the state as it is
    and logs no warning. *)
Theorem resolved_identity_loads
    (cwd : string) (fg : string -> list string)
    (getTsconfig : string -> option TsConfigResult) (options : Options)
    (calls : list Call) (source : string) (importer : option string) :
  let resolved := resolveId cwd fg getTsconfig options source importer
                    (run cwd fg getTsconfig options calls) in
  forall id : string,
    resolved.1 = Some id ->
    isVirtualId id = true
    /\ exists code : string,
         code <> EmptyString
         /\ forall more : list Call,
              let later := foldl (call cwd fg getTsconfig options) resolved.2 more in
              load id later = (Some code, later).
Proof.
  intros resolved id Hid.
  pose proof (cacheSound_call cwd fg getTsconfig options _
                (CallResolveId source importer)
                (cacheSound_run cwd fg getTsconfig options calls)) as Hsound.
  cbn [call] in Hsound. fold resolved in Hsound.
  assert (exists code, codeCache resolved.2 !! id = Some code) as [code Hcode].
  { subst resolved. revert Hid. unfold resolveId.
    destruct (resolveRequest cwd getTsconfig options source importer _) as [|w|r];
      [done|done|].
    destruct (fg (rResolvedPattern r)) as [|f files] eqn:Hfiles; [done|].
    rewrite resolveFiles_identity by done. intros [= <-].
    exact (proj1 (proj2 (resolveFiles_cached cwd options r (f :: files) _
                           ltac:(done)))). }
  destruct (Hsound id code Hcode) as [Hvirtual Htruthy].
  split; [exact Hvirtual|]. exists code. split.
  - intros ->. discriminate Htruthy.
  - intros more later. apply load_cached; [done|done|].
    by apply cacheKept_calls.
Qed.

Lemma resolved_identity_loads_witness :
  let calls :=
    [CallResolveId "dc:idle:./shared/*.jsx" (Some "/p/src/pages/b.astro");
     CallLoad "/p/src/_generate_/_virtual_dc_0.astro"] in
  let resolved :=
    resolveId Project.cwd Project.fg Project.getTsconfig Project.options
      "dc:load:./shared/*.jsx" (Some "/p/src/pages/a.astro")
      (run Project.cwd Project.fg Project.getTsconfig Project.options calls) in
  let id := "/p/src/_generate_/_virtual_dc_33d26c54.astro" in
  resolved.1 = Some id
  /\ isVirtualId id = true
  /\ exists code : string,
       code <> EmptyString
       /\ forall more : list Call,
            let later :=
              foldl (call Project.cwd Project.fg Project.getTsconfig Project.options)
                resolved.2 more in
            load id later = (Some code, later).
Proof.
  intros calls resolved id.
  assert (resolved.1 = Some id) as Hid by (vm_compute; reflexivity).
  split; [exact Hid|].
  exact (resolved_identity_loads Project.cwd Project.fg Project.getTsconfig
           Project.options calls "dc:load:./shared/*.jsx"
           (Some "/p/src/pages/a.astro") id Hid).
Defined.

(** X10. The cache is never invalidated: a text that [load] has served
    for an identity is the text it serves for it after any sequence of
    further calls, [configResolved] with another project root among
    them, and serving it changes nothing. *)
Theorem load_serves_same_text_forever
    (cwd : string) (fg : string -> list string)
    (getTsconfig : string -> option TsConfigResult) (options : Options)
    (st : State) (id code : string) (calls : list Call) :
  (load id st).1 = Some code ->
  let later := foldl (call cwd fg getTsconfig options) st calls in
  load id st = (Some code, st)
  /\ load id later = (Some code, later)
  /\ codeCache later !! id = Some code.
Proof.
  intros Hload later.
  destruct (load id st) as [result st'] eqn:Hl. cbn [fst] in Hload. subst result.
  destruct (load_Some _ _ _ _ Hl) as (Hvirtual & Htruthy & Hcode & ->).
  split; [done|].
  pose proof (cacheKept_calls cwd fg getTsconfig options calls st id code Hcode) as Hkept.
  split; [by apply load_cached|exact Hkept].
Qed.

Lemma load_serves_same_text_forever_witness :
  let id := "/p/src/_generate_/_virtual_dc_33d26c54.astro" in
  let st := (resolveId Project.cwd Project.fg Project.getTsconfig Project.options
               "dc:load:./shared/*.jsx" (Some "/p/src/pages/a.astro")
               Project.start).2 in
  let calls :=
    [CallConfigResolved {| root := "/elsewhere"; alias := None |};
     CallResolveId "dc:idle:./shared/*.jsx" (Some "/p/src/pages/b.astro");
     CallLoad "/p/src/_generate_/_virtual_dc_0.astro"] in
  let later :=
    foldl (call Project.cwd Project.fg Project.getTsconfig Project.options) st calls in
  exists code : string,
    (load id st).1 = Some code
    /\ load id later = (Some code, later)
    /\ projectRoot later = "/elsewhere".
Proof.
  intros id st calls later.
  destruct (load id st).1 as [code|] eqn:Hload; [|vm_compute in Hload; discriminate Hload].
  exists code. split; [reflexivity|].
  split; [|vm_compute; reflexivity].
  exact (proj1 (proj2 (load_serves_same_text_forever Project.cwd Project.fg
                         Project.getTsconfig Project.options st id code calls Hload))).
Defined.

(** ** [path.resolve] on segments *)

Lemma segments_app a b :
  Path.segments (a +:+ "/" +:+ b) = Path.segments a ++ Path.segments b.
Proof. apply split_app_sep. Qed.

Lemma resolveLoop_stack (ps : list string) :
  Exists (fun p => Path.isAbsolute p = true) ps ->
  forall acc stack, exists s,
    Path.resolveLoop (rev ps) acc = (s, true)
    /\ foldl (Path.normalizeStep false) [] (Path.segments s)
       = foldl (Path.normalizeStep false) (resolveStack stack ps) (Path.segments acc).
Proof.
  induction ps as [|p ps IH] using rev_ind; [by intros H%Exists_nil|].
  intros Habs acc stack. rewrite rev_app_distr. cbn [rev app Path.resolveLoop].
  unfold resolveStack. rewrite foldl_app. cbn [foldl].
  fold (resolveStack stack ps).
  destruct (String.eqb_spec p EmptyString) as [->|Hne].
  - apply Exists_app in Habs as [Habs|Habs].
    + destruct (IH Habs acc stack) as (s & Hs & Hfold). by exists s.
    + apply Exists_cons in Habs as [Habs|Habs%Exists_nil]; done.
  - destruct (Path.isAbsolute p) eqn:Hp.
    + eexists. split; [done|]. by rewrite segments_app, foldl_app.
    + apply Exists_app in Habs as [Habs|Habs].
      * destruct (IH Habs (p +:+ "/" +:+ acc) stack) as (s & Hs & Hfold).
        exists s. split; [done|]. by rewrite Hfold, segments_app, foldl_app.
      * apply Exists_cons in Habs as [Habs|Habs%Exists_nil]; [congruence|done].
Qed.

(** With an absolute working directory, [path.resolve] returns a slash
    and the segments it has kept. *)
Lemma resolve_stack cwd (args : list string) :
  Path.isAbsolute cwd = true ->
  Path.resolve cwd args = "/" +:+ JS.join "/" (rev (resolveStack [] (cwd :: args))).
Proof.
  intros Hcwd. unfold Path.resolve.
  change (rev args ++ [cwd]) with (rev (cwd :: args)).
  destruct (resolveLoop_stack (cwd :: args)
              ltac:(by apply Exists_cons_hd) EmptyString [])
    as (s & -> & Hfold).
  unfold Path.normalizeString, Path.normalizeSegments. cbn [negb].
  by rewrite Hfold.
Qed.

Lemma normalizeStep_plainNames res seg :
  JS.includes "/" seg = false ->
  plainNames res -> plainNames (Path.normalizeStep false res seg).
Proof.
  intros Hseg Hres. unfold Path.normalizeStep.
  destruct (String.eqb_spec seg EmptyString) as [->|Hne]; [done|].
  destruct (String.eqb_spec seg ".") as [->|Hnd]; [done|]. cbn [orb].
  destruct (String.eqb_spec seg "..") as [->|Hndd].
  - destruct res as [|last res]; [done|].
    apply Forall_cons in Hres as [(_ & _ & Hlast) Hres]. by rewrite Hlast.
  - constructor; [|done]. split; [|split; [done|]].
    + unfold realSegment, Path.nonEmpty.
      destruct (String.eqb_spec seg EmptyString); [done|].
      by destruct (String.eqb_spec seg ".").
    + by destruct (String.eqb_spec seg "..").
Qed.

Lemma foldl_plainNames res path :
  plainNames res ->
  plainNames (foldl (Path.normalizeStep false) res (Path.segments path)).
Proof.
  unfold Path.segments. pose proof (split_pieces_plain "/" path) as Hs.
  revert res. induction Hs as [|seg segs Hseg _ IH]; intros res Hres; [done|].
  simpl. by apply IH, normalizeStep_plainNames.
Qed.

Lemma resolveStack_plainNames stack (args : list string) :
  plainNames stack -> plainNames (resolveStack stack args).
Proof.
  revert stack. induction args as [|p args IH]; intros stack Hst; [done|].
  cbn [resolveStack foldl]. apply IH, foldl_plainNames.
  destruct (Path.isAbsolute p); [constructor|done].
Qed.

Lemma foldl_push res (segs : list string) :
  plainNames segs ->
  foldl (Path.normalizeStep false) res segs = rev segs ++ res.
Proof.
  revert res. induction segs as [|seg segs IH]; intros res; [done|].
  intros [Hseg Hsegs]%Forall_cons. cbn [foldl rev].
  rewrite (normalizeStep_plainName _ _ _ Hseg), IH by done.
  by rewrite <-app_assoc.
Qed.

Lemma foldl_pop (up res : list string) :
  plainNames up ->
  foldl (Path.normalizeStep false) (rev up ++ res)
    (replicate (List.length up) "..") = res.
Proof.
  induction up as [|seg up IH] using rev_ind; [done|].
  intros [Hup [Hseg _]%Forall_cons]%Forall_app.
  rewrite rev_app_distr, length_app, Nat.add_comm. cbn [rev app List.length Nat.add].
  cbn [replicate foldl]. destruct Hseg as (_ & _ & Hdd).
  unfold Path.normalizeStep at 2. cbn [String.eqb Ascii.eqb Bool.eqb orb].
  rewrite Hdd. by apply IH.
Qed.

Lemma plainNames_no_slash (segs : list string) :
  plainNames segs -> Forall (fun piece => JS.includes "/" piece = false) segs.
Proof. intros H. eapply Forall_impl; [exact H|]. by intros seg (_ & H' & _). Qed.

Lemma segments_join (pieces : list string) :
  pieces <> [] ->
  Forall (fun piece => JS.includes "/" piece = false) pieces ->
  Path.segments (JS.join "/" pieces) = pieces.
Proof. exact (split_join "/" pieces). Qed.

(** The segments of a slash and plain names joined by slashes. *)
Lemma segments_resolved (segs : list string) :
  plainNames segs ->
  foldl (Path.normalizeStep false) [] (Path.segments ("/" +:+ JS.join "/" segs))
  = rev segs
  /\ filter (fun a => Path.nonEmpty a = true)
       (Path.segments ("/" +:+ JS.join "/" segs)) = segs.
Proof.
  intros Hsegs.
  change ("/" +:+ JS.join "/" segs) with (EmptyString +:+ "/" +:+ JS.join "/" segs).
  rewrite segments_app. change (Path.segments EmptyString) with [EmptyString].
  destruct segs as [|x segs]; [done|].
  rewrite (segments_join (x :: segs)) by (done || by apply plainNames_no_slash).
  cbn [app]. split.
  - change (foldl ?f [] (EmptyString :: ?l)) with (foldl f [] l).
    by rewrite (foldl_push [] _ Hsegs), app_nil_r.
  - rewrite filter_cons, decide_False by done.
    clear -Hsegs. induction Hsegs as [|seg segs' [Hseg _] _ IH]; [done|].
    rewrite filter_cons. unfold realSegment in Hseg.
    apply andb_prop in Hseg as [Hseg _]. rewrite decide_True by done. by rewrite IH.
Qed.

Lemma stripCommon_spec (xs ys : list string) :
  exists common,
    xs = common ++ (Path.stripCommon xs ys).1
    /\ ys = common ++ (Path.stripCommon xs ys).2.
Proof.
  revert ys. induction xs as [|x xs IH]; intros ys; [by exists []|].
  destruct ys as [|y ys]; [by exists []|]. cbn [Path.stripCommon].
  destruct (String.eqb_spec x y) as [->|Hne]; [|by exists []].
  destruct (IH ys) as (common & Hxs & Hys). exists (y :: common).
  cbn [app]. by rewrite <-Hxs, <-Hys.
Qed.

Lemma resolved_absolute p :
  isResolved p ->
  foldl (Path.normalizeStep false) [] (Path.segments p) = rev (absoluteSegments p)
  /\ plainNames (absoluteSegments p).
Proof.
  intros _. unfold absoluteSegments, Path.normalizeSegments.
  rewrite rev_involutive. split; [done|].
  apply Forall_rev, foldl_plainNames. constructor.
Qed.

(** Resolving an absolute path in resolved form returns it. *)
Lemma resolve_resolved cwd p :
  Path.isAbsolute cwd = true -> isResolved p -> Path.resolve cwd [p] = p.
Proof.
  intros Hcwd [Hp Habs]. rewrite resolve_stack by done.
  cbn [resolveStack foldl]. rewrite Habs.
  destruct (resolved_absolute p) as [-> _]; [done|]. by rewrite rev_involutive.
Qed.

(** What [path.resolve] returns is in resolved form. *)
Lemma resolve_isResolved cwd (args : list string) :
  Path.isAbsolute cwd = true -> isResolved (Path.resolve cwd args).
Proof.
  intros Hcwd. rewrite resolve_stack by done.
  pose proof (resolveStack_plainNames [] (cwd :: args) ltac:(constructor)) as Hplain.
  apply Forall_rev in Hplain.
  split; [|done]. unfold absoluteSegments, Path.normalizeSegments.
  destruct (segments_resolved _ Hplain) as [-> _]. by rewrite rev_involutive.
Qed.

Lemma join_head_relative piece (pieces : list string) :
  piece <> EmptyString -> Path.isAbsolute piece = false ->
  Path.isAbsolute (JS.join "/" (piece :: pieces)) = false.
Proof.
  destruct piece as [|c piece]; [done|]. intros _. unfold Path.isAbsolute.
  destruct pieces as [|p ps]; [done|].
  change (JS.join "/" (String c piece :: p :: ps))
    with (String c (piece +:+ "/" +:+ JS.join "/" (p :: ps))).
  cbn [JS.startsWith]. by destruct (Ascii.eqb "/" c).
Qed.

(** The relative path from [from] to [to'], followed from [from], ends
    at [to']: the round trip of [path.relative] and [path.resolve]. *)
Lemma relative_stack cwd from to' :
  Path.isAbsolute cwd = true -> isResolved to' ->
  foldl (Path.normalizeStep false) (resolveStack [] [cwd; from])
    (Path.segments (Path.relative cwd from to'))
  = rev (absoluteSegments to')
  /\ Path.isAbsolute (Path.relative cwd from to') = false
  /\ exists (n : nat) (common down : list string),
       Path.relative cwd from to' = JS.join "/" (replicate n ".." ++ down)
       /\ absoluteSegments to' = common ++ down.
Proof.
  intros Hcwd Hto.
  destruct (resolved_absolute to' Hto) as [Hfold Hplain].
  pose proof (resolveStack_plainNames [] [cwd; from] ltac:(constructor)) as Hfrom.
  assert (resolveStack [] [cwd; to'] = rev (absoluteSegments to')) as Hstack.
  { cbn [resolveStack foldl]. by rewrite (proj2 Hto). }
  unfold Path.relative.
  assert (exists (n : nat) (common down : list string),
             EmptyString = JS.join "/" (replicate n ".." ++ down)
             /\ absoluteSegments to' = common ++ down) as Hempty.
  { exists 0, (absoluteSegments to'), []. split; [done|by rewrite app_nil_r]. }
  destruct (String.eqb_spec from to') as [->|_]; [by rewrite Hstack|].
  rewrite (resolve_stack cwd [from]), (resolve_resolved cwd to') by done.
  set (kept := resolveStack [] [cwd; from]) in *.
  destruct (String.eqb_spec ("/" +:+ JS.join "/" (rev kept)) to') as [Heq|_].
  { split; [|done]. cbn [Path.segments JS.split foldl].
    change (Path.normalizeStep false kept EmptyString) with kept.
    destruct (segments_resolved (rev kept)) as [Hk _]; [by apply Forall_rev|].
    by rewrite <-Hfold, <-Heq, Hk, rev_involutive. }
  destruct (segments_resolved (rev kept)) as [_ ->]; [by apply Forall_rev|].
  assert (filter (fun a => Path.nonEmpty a = true) (Path.segments to')
          = absoluteSegments to') as ->.
  { destruct (segments_resolved (absoluteSegments to') Hplain) as [_ H].
    by rewrite <-(proj1 Hto) in H. }
  destruct (stripCommon_spec (rev kept) (absoluteSegments to'))
    as (common & Hup & Hdown).
  destruct (Path.stripCommon (rev kept) (absoluteSegments to')) as [up down].
  cbn [fst snd] in Hup, Hdown.
  assert (kept = rev up ++ rev common) as ->
    by by rewrite <-rev_app_distr, <-Hup, rev_involutive.
  rewrite Hdown in Hplain |- *. apply Forall_app in Hplain as [_ Hdownp].
  apply Forall_app in Hfrom as [Hupp%Forall_rev _]. rewrite rev_involutive in Hupp.
  assert (Forall (fun piece => JS.includes "/" piece = false)
            (replicate (List.length up) ".." ++ down)) as Hpieces.
  { apply Forall_app. split; [|by apply plainNames_no_slash].
    clear. induction (List.length up); by constructor. }
  destruct (replicate (List.length up) ".." ++ down) as [|piece pieces] eqn:Hps.
  { apply app_eq_nil in Hps as [Hup0 ->].
    destruct up; [|done]. rewrite app_nil_r.
    split; [done|]. split; [done|].
    exists 0, common, []. split; [done|by rewrite app_nil_r]. }
  rewrite <-Hps in *.
  split; [|split; [|by exists (List.length up), common, down]].
  - rewrite segments_join; [|by rewrite Hps|exact Hpieces].
    rewrite foldl_app, (foldl_pop _ _ Hupp), (foldl_push _ _ Hdownp).
    by rewrite rev_app_distr.
  - destruct (List.length up); cbn [replicate app] in Hps.
    + rewrite Hps in Hdownp |- *. apply Forall_cons in Hdownp as [Hp _].
      apply join_head_relative;
        [by apply plainName_nonEmpty|by apply plainName_relative].
    + by apply join_head_relative.
Qed.

(** ** The relative paths of the matched files *)

Lemma includes_join_inv c sep (pieces : list string) :
  JS.includes c (JS.join sep pieces) = false ->
  Forall (fun piece => JS.includes c piece = false) pieces.
Proof.
  induction pieces as [|x pieces IH]; [constructor|].
  destruct pieces as [|y pieces]; [by repeat constructor|].
  change (JS.join sep (x :: y :: pieces))
    with (x +:+ sep +:+ JS.join sep (y :: pieces)).
  rewrite !includes_app. intros [Hx [_ Hr]%orb_false_elim]%orb_false_elim.
  constructor; [done|by apply IH].
Qed.

Lemma includes_join c sep (pieces : list string) :
  JS.includes c sep = false ->
  Forall (fun piece => JS.includes c piece = false) pieces ->
  JS.includes c (JS.join sep pieces) = false.
Proof.
  intros Hsep. induction 1 as [|x pieces Hx Hps IH]; [done|].
  destruct pieces as [|y pieces]; [done|].
  change (JS.join sep (x :: y :: pieces))
    with (x +:+ sep +:+ JS.join sep (y :: pieces)).
  by rewrite !includes_app, Hx, Hsep, IH.
Qed.

(** The relative path to a file without a backslash has none, so
    [normalizePath] leaves it as it is. *)
Lemma relative_normalizePath cwd from file :
  Path.isAbsolute cwd = true -> isResolved file ->
  JS.includes "\" file = false ->
  normalizePath (Path.relative cwd from file) = Path.relative cwd from file.
Proof.
  intros Hcwd Hfile Hplain. apply normalizePath_plain.
  destruct (relative_stack cwd from file Hcwd Hfile)
    as (_ & _ & n & common & down & -> & Hdown).
  destruct Hfile as [Hfile _]. rewrite Hfile, Hdown in Hplain.
  change ("/" +:+ JS.join "/" (common ++ down))
    with (String "/" (JS.join "/" (common ++ down))) in Hplain.
  cbn [JS.includes] in Hplain. apply orb_false_elim in Hplain as [_ Hplain].
  apply includes_join_inv, Forall_app in Hplain as [_ Hplain].
  apply includes_join; [done|]. apply Forall_app. split; [|done].
  clear. induction n; by constructor.
Qed.

Lemma resolve_relative cwd from file :
  Path.isAbsolute cwd = true -> isResolved file ->
  Path.resolve cwd [from; Path.relative cwd from file] = file.
Proof.
  intros Hcwd Hfile.
  destruct (relative_stack cwd from file Hcwd Hfile) as (Hfold & Hrel & _).
  rewrite resolve_stack by done.
  change (resolveStack [] [cwd; from; Path.relative cwd from file])
    with (foldl (Path.normalizeStep false)
            (if Path.isAbsolute (Path.relative cwd from file) then []
             else resolveStack [] [cwd; from])
            (Path.segments (Path.relative cwd from file))).
  rewrite Hrel, Hfold, rev_involutive. symmetry. apply Hfile.
Qed.

(** X11. The relative path [resolveId] derives a component's display
    name and import name from leads from the glob base back to the
    matched file, for a file path as the glob returns it (absolute, in
    resolved form, without a backslash) and whatever the base is. So
    two distinct matched files have distinct relative paths: their
    import names are hashes of distinct texts, and their display names
    can coincide only through the stripped extension. *)
Theorem component_path_leads_back_to_file
    (cwd baseDir file : string) :
  Path.isAbsolute cwd = true -> isResolved file ->
  JS.includes "\" file = false ->
  let relativePath := normalizePath (Path.relative cwd baseDir file) in
  compName (componentOf cwd baseDir file) = JS.stripExtension relativePath
  /\ importName (componentOf cwd baseDir file) = "Com_" +:+ md5 relativePath
  /\ Path.resolve cwd [baseDir; relativePath] = file
  /\ forall file' : string,
       isResolved file' -> JS.includes "\" file' = false ->
       normalizePath (Path.relative cwd baseDir file') = relativePath ->
       file' = file.
Proof.
  intros Hcwd Hfile Hplain relativePath. subst relativePath.
  split; [done|]. split; [done|].
  rewrite relative_normalizePath by done.
  split; [by apply resolve_relative|].
  intros file' Hfile' Hplain' Heq. rewrite relative_normalizePath in Heq by done.
  rewrite <-(resolve_relative cwd baseDir file' Hcwd Hfile').
  rewrite Heq. by apply resolve_relative.
Qed.

Lemma component_path_leads_back_to_file_witness :
  let cwd := "/p" in
  let baseDir := "/p/src/pages/shared/icons" in
  let file := "/p/src/pages/shared/Card.jsx" in
  Path.relative cwd baseDir file = "../Card.jsx"
  /\ compName (componentOf cwd baseDir file) = "../Card"
  /\ Path.resolve cwd [baseDir; "../Card.jsx"] = file.
Proof.
  intros cwd baseDir file.
  assert (Path.relative cwd baseDir file = "../Card.jsx") as Hrel
    by (vm_compute; reflexivity).
  split; [exact Hrel|].
  assert (Path.isAbsolute cwd = true) as Hcwd by reflexivity.
  assert (isResolved file) as Hfile by (split; vm_compute; reflexivity).
  assert (JS.includes "\" file = false) as Hplain by reflexivity.
  pose proof (component_path_leads_back_to_file cwd baseDir file Hcwd Hfile Hplain)
    as (Hname & _ & Hback & _).
  split; [vm_compute; reflexivity|].
  change (normalizePath (Path.relative cwd baseDir file)) with "../Card.jsx" in Hback.
  exact Hback.
Defined.

Lemma dropWhile_stop (cs rest : list ascii) :
  Forall (fun c => Path.isSlash c = false) cs ->
  Path.dropWhile (fun c => negb (Path.isSlash c)) (cs ++ "/"%char :: rest)
  = "/"%char :: rest.
Proof. induction 1 as [|c cs Hc _ IH]; simpl; [done|]. by rewrite Hc. Qed.

Lemma length_list_ascii s : List.length (list_ascii_of_string s) = String.length s.
Proof. induction s as [|a s IH]; [done|]. simpl. by rewrite IH. Qed.

(** The directory of a resolved path below the root is the path without
    its last segment. *)
Lemma dirname_resolved (segs : list string) name :
  segs <> [] -> plainNames segs -> plainName name ->
  Path.dirname ("/" +:+ JS.join "/" (segs ++ [name])) = "/" +:+ JS.join "/" segs.
Proof.
  intros Hne Hsegs Hname. rewrite join_snoc by done.
  change ("/" +:+ JS.join "/" segs +:+ "/" +:+ name)
    with (String "/" (JS.join "/" segs +:+ String "/" name)).
  cbn [Path.dirname]. rewrite list_ascii_app. cbn [list_ascii_of_string].
  rewrite rev_app_distr. cbn [rev]. rewrite <-app_assoc. cbn [app].
  pose proof (plainName_nonEmpty _ Hname) as Hn.
  destruct Hname as (_ & Hplain & _).
  pose proof (list_ascii_plain name Hplain) as Hcs. apply Forall_rev in Hcs.
  assert (rev (list_ascii_of_string name) <> []) as Hrev.
  { intros H. apply (f_equal (@rev ascii)) in H. rewrite rev_involutive in H.
    by destruct name. }
  rewrite (dropWhile_plain _ ("/"%char :: rev (list_ascii_of_string (JS.join "/" segs)))
             Hrev Hcs).
  rewrite (dropWhile_stop _ (rev (list_ascii_of_string (JS.join "/" segs))) Hcs).
  rewrite length_rev, length_list_ascii.
  assert (JS.join "/" segs <> EmptyString) as Hjoin.
  { destruct segs as [|x segs]; [done|]. apply Forall_cons in Hsegs as [Hx _].
    apply plainName_nonEmpty in Hx. destruct x; [done|]. by destruct segs. }
  destruct (JS.join "/" segs) as [|a s] eqn:Hj; [done|].
  cbn [String.length Nat.eqb andb Path.isSlash].
  rewrite andb_false_r.
  by rewrite rev_involutive, string_of_list_ascii_of_string.
Qed.

Lemma resolveStack_snoc stack (args : list string) name :
  plainName name ->
  resolveStack stack (args ++ [name]) = name :: resolveStack stack args.
Proof.
  intros Hname. unfold resolveStack. rewrite foldl_app. cbn [foldl].
  rewrite (plainName_relative _ Hname).
  unfold Path.segments. rewrite split_plain by apply Hname.
  cbn [foldl]. by apply normalizeStep_plainName.
Qed.

(** X12. The import of a matched file in the virtual module of a
    relative pattern points at that file: the import path, [../] and
    the file's path relative to the source directory, resolved from the
    directory of the virtual file ([_generate_] in the source
    directory), is the matched file. *)
Theorem generated_import_points_at_file
    (cwd : string) (options : Options) (root : string) (files : list string)
    (pattern baseDir : string) (c : Component) :
  Path.isAbsolute cwd = true -> isResolved (filePath c) ->
  JS.includes "\" (filePath c) = false ->
  let srcDirAbsolute := Path.resolve cwd [root; srcDir options] in
  let virtualFilePath := virtualFilePathOf cwd options root files in
  Path.dirname virtualFilePath = Path.resolve cwd [srcDirAbsolute; "_generate_"]
  /\ exists importPath : string,
       importStatement cwd pattern baseDir false srcDirAbsolute c
       = "import " +:+ importName c +:+ " from " +:+ JS.dq +:+ importPath
         +:+ JS.dq +:+ ";"
       /\ Path.resolve cwd [Path.dirname virtualFilePath; importPath] = filePath c.
Proof.
  intros Hcwd Hfile Hplain srcDirAbsolute virtualFilePath.
  set (kept := resolveStack [] [cwd; root; srcDir options]).
  assert (plainNames kept) as Hkept by (apply resolveStack_plainNames; constructor).
  assert (srcDirAbsolute = "/" +:+ JS.join "/" (rev kept)) as Hsrc
    by by apply resolve_stack.
  assert (plainName "_generate_") as Hgen by done.
  assert (plainNames (rev ("_generate_" :: kept))) as Hgenkept
    by by apply Forall_rev; constructor.
  assert (Path.dirname virtualFilePath
          = "/" +:+ JS.join "/" (rev ("_generate_" :: kept))) as Hdir.
  { subst virtualFilePath. unfold virtualFilePathOf.
    set (name := "_virtual_dc_" +:+ filesHash cwd options root files +:+ ".astro").
    assert (plainName name) as Hname by apply virtual_name_plain, md5_no_slash.
    rewrite resolve_stack by done.
    change (cwd :: [root; srcDir options; "_generate_"; name])
      with (([cwd; root; srcDir options] ++ ["_generate_"]) ++ [name]).
    rewrite !resolveStack_snoc by done. fold kept.
    change (rev (name :: "_generate_" :: kept))
      with (rev ("_generate_" :: kept) ++ [name]).
    apply dirname_resolved; [|done|done].
    cbn [rev]. by destruct (rev kept). }
  assert (resolveStack [] [cwd; srcDirAbsolute] = kept) as Hstack.
  { cbn [resolveStack foldl]. rewrite Hsrc.
    change (Path.isAbsolute ("/" +:+ JS.join "/" (rev kept))) with true. cbv iota.
    destruct (segments_resolved (rev kept)) as [-> _]; [by apply Forall_rev|].
    by rewrite rev_involutive. }
  split.
  - rewrite Hdir, resolve_stack by done.
    change (cwd :: [srcDirAbsolute; "_generate_"])
      with ([cwd; srcDirAbsolute] ++ ["_generate_"]).
    by rewrite resolveStack_snoc, Hstack.
  - eexists. split; [reflexivity|].
    rewrite relative_normalizePath by done.
    destruct (relative_stack cwd srcDirAbsolute (filePath c) Hcwd Hfile)
      as (Hfold & _ & _).
    rewrite Hstack in Hfold.
    rewrite Hdir, resolve_stack by done.
    cbn [resolveStack foldl].
    change (Path.isAbsolute ("/" +:+ JS.join "/" (rev ("_generate_" :: kept))))
      with true.
    change (Path.isAbsolute ("../" +:+ Path.relative cwd srcDirAbsolute (filePath c)))
      with false.
    cbv iota.
    destruct (segments_resolved (rev ("_generate_" :: kept))) as [-> _]; [done|].
    rewrite rev_involutive.
    change ("../" +:+ Path.relative cwd srcDirAbsolute (filePath c))
      with (".." +:+ "/" +:+ Path.relative cwd srcDirAbsolute (filePath c)).
    rewrite segments_app.
    change (Path.segments "..") with [".."]. cbn [app foldl].
    change (Path.normalizeStep false ("_generate_" :: kept) "..") with kept.
    rewrite Hfold, rev_involutive. symmetry. apply Hfile.
Qed.

Lemma generated_import_points_at_file_witness :
  let file := "/p/src/pages/shared/Card.jsx" in
  let c := componentOf Project.cwd "/p/src/pages/shared" file in
  let virtualFilePath :=
    virtualFilePathOf Project.cwd Project.options "/p" [file] in
  Path.isAbsolute Project.cwd = true
  /\ isResolved (filePath c)
  /\ JS.includes "\" (filePath c) = false
  /\ importStatement Project.cwd "./shared/*.jsx" "/p/src/pages/shared" false
       "/p/src" c
     = "import Com_cd0fde9e from " +:+ JS.dq +:+ "../pages/shared/Card.jsx"
       +:+ JS.dq +:+ ";"
  /\ Path.dirname virtualFilePath = "/p/src/_generate_"
  /\ exists importPath : string,
       importStatement Project.cwd "./shared/*.jsx" "/p/src/pages/shared" false
         (Path.resolve Project.cwd ["/p"; srcDir Project.options]) c
       = "import " +:+ importName c +:+ " from " +:+ JS.dq +:+ importPath
         +:+ JS.dq +:+ ";"
       /\ Path.resolve Project.cwd [Path.dirname virtualFilePath; importPath]
          = filePath c.
Proof.
  intros file c virtualFilePath.
  assert (Path.isAbsolute Project.cwd = true) as Hcwd by reflexivity.
  assert (isResolved (filePath c)) as Hfile by (split; vm_compute; reflexivity).
  assert (JS.includes "\" (filePath c) = false) as Hplain by reflexivity.
  split; [exact Hcwd|]. split; [exact Hfile|]. split; [exact Hplain|].
  split; [vm_compute; reflexivity|]. split; [vm_compute; reflexivity|].
  exact (proj2 (generated_import_points_at_file Project.cwd Project.options "/p"
                  [file] "./shared/*.jsx" "/p/src/pages/shared" c
                  Hcwd Hfile Hplain)).
Defined.

(** X13. With an absolute working directory, every identity [resolveId]
    returns names a file [_virtual_dc_] + eight hexadecimal digits +
    [.astro] in the directory [_generate_] of the source directory of
    the project root the plugin holds at that moment. *)
Theorem identity_lies_in_generate_directory
    (cwd : string) (fg : string -> list string)
    (getTsconfig : string -> option TsConfigResult) (options : Options)
    (source : string) (importer : option string) (st : State) (id : string) :
  Path.isAbsolute cwd = true ->
  (resolveId cwd fg getTsconfig options source importer st).1 = Some id ->
  exists hash : string,
    String.length hash = 8 /\ allAre isHexDigit hash = true
    /\ Path.basename id = "_virtual_dc_" +:+ hash +:+ ".astro"
    /\ Path.dirname id
       = Path.resolve cwd [projectRoot st; srcDir options; "_generate_"]
    /\ id = Path.dirname id +:+ "/" +:+ Path.basename id.
Proof.
  intros Hcwd Hid.
  assert (exists files, id = virtualFilePathOf cwd options (projectRoot st) files)
    as [files ->].
  { revert Hid. unfold resolveId.
    destruct (resolveRequest cwd getTsconfig options source importer st) as [|w|r];
      [done|done|].
    destruct (fg (rResolvedPattern r)) as [|f files] eqn:Hfiles; [done|].
    rewrite resolveFiles_identity by done. intros [= <-]. by eexists. }
  exists (filesHash cwd options (projectRoot st) files).
  destruct (md5_shape
              (JS.join ","
                 (JS.sort ((fun f => normalizePath
                                       (Path.relative cwd
                                          (Path.resolve cwd [projectRoot st; srcDir options]) f))
                           <$> files)))) as [H8 Hhex].
  split; [exact H8|]. split; [exact Hhex|].
  set (name := "_virtual_dc_" +:+ filesHash cwd options (projectRoot st) files
               +:+ ".astro").
  assert (plainName name) as Hname by apply virtual_name_plain, md5_no_slash.
  assert (Path.basename (virtualFilePathOf cwd options (projectRoot st) files) = name)
    as Hbase.
  { unfold virtualFilePathOf. fold name.
    change [projectRoot st; srcDir options; "_generate_"; name]
      with ([projectRoot st; srcDir options; "_generate_"] ++ [name]).
    by apply resolve_basename. }
  set (kept := resolveStack [] [cwd; projectRoot st; srcDir options; "_generate_"]).
  assert (plainNames kept) as Hkept by (apply resolveStack_plainNames; constructor).
  assert (kept <> []) as Hne.
  { subst kept.
    change [cwd; projectRoot st; srcDir options; "_generate_"]
      with ([cwd; projectRoot st; srcDir options] ++ ["_generate_"]).
    by rewrite resolveStack_snoc. }
  assert (virtualFilePathOf cwd options (projectRoot st) files
          = "/" +:+ JS.join "/" (rev kept ++ [name])) as Hpath.
  { unfold virtualFilePathOf. fold name. rewrite resolve_stack by done.
    change (cwd :: [projectRoot st; srcDir options; "_generate_"; name])
      with ([cwd; projectRoot st; srcDir options; "_generate_"] ++ [name]).
    by rewrite resolveStack_snoc. }
  assert (rev kept <> []) as Hrev.
  { intros H. apply (f_equal (@rev string)) in H. by rewrite rev_involutive in H. }
  assert (Path.dirname (virtualFilePathOf cwd options (projectRoot st) files)
          = "/" +:+ JS.join "/" (rev kept)) as Hdir.
  { rewrite Hpath. apply dirname_resolved; [done|by apply Forall_rev|done]. }
  rewrite Hbase, Hdir. split; [done|]. split; [by rewrite resolve_stack|].
  rewrite Hpath, join_snoc by done. by rewrite !app_assoc'.
Qed.

Lemma identity_lies_in_generate_directory_witness :
  let st :=
    configResolved Project.cwd {| root := "/site"; alias := None |} Project.start in
  let id := "/p/src/_generate_/_virtual_dc_33d26c54.astro" in
  Path.isAbsolute Project.cwd = true
  /\ (resolveId Project.cwd Project.fg Project.getTsconfig Project.options
        "dc:load:./shared/*.jsx" (Some "/p/src/pages/a.astro") st).1 = Some id
  /\ exists hash : string,
       String.length hash = 8 /\ allAre isHexDigit hash = true
       /\ Path.basename id = "_virtual_dc_" +:+ hash +:+ ".astro"
       /\ Path.dirname id
          = Path.resolve Project.cwd
              [projectRoot st; srcDir Project.options; "_generate_"]
       /\ id = Path.dirname id +:+ "/" +:+ Path.basename id.
Proof.
  intros st id.
  assert (Path.isAbsolute Project.cwd = true) as Hcwd by reflexivity.
  assert ((resolveId Project.cwd Project.fg Project.getTsconfig Project.options
             "dc:load:./shared/*.jsx" (Some "/p/src/pages/a.astro") st).1 = Some id)
    as Hid by (vm_compute; reflexivity).
  split; [exact Hcwd|]. split; [exact Hid|].
  exact (identity_lies_in_generate_directory Project.cwd Project.fg
           Project.getTsconfig Project.options "dc:load:./shared/*.jsx"
           (Some "/p/src/pages/a.astro") st id Hcwd Hid).
Defined.

(** ** The path-mapping tier of [resolveAlias] *)

Lemma tsPathsLoop_isResolved cwd aliasPath baseUrlResolved
    (entries : list (string * list string)) resolved :
  Path.isAbsolute cwd = true ->
  tsPathsLoop cwd aliasPath baseUrlResolved entries = Some resolved ->
  isResolved resolved.
Proof.
  intros Hcwd. induction entries as [|[pattern mappings] entries IH]; [done|].
  cbn [tsPathsLoop]. cbv zeta.
  destruct (JS.startsWith _ aliasPath); [|exact IH].
  destruct (mappings !! 0%nat) as [mapping|]; [|exact IH].
  destruct (negb (Path.nonEmpty mapping)); [exact IH|].
  intros [= <-]. by apply resolve_isResolved.
Qed.

(** X14. With an absolute working directory, what the path-mapping
    tier of [resolveAlias] returns is an absolute path in resolved form,
    whatever the mapping file holds: a slash and segments joined by
    slashes, none of them empty, [.] or [..]; and resolving it again
    returns it. *)
Theorem path_mapping_result_is_resolved
    (cwd : string) (getTsconfig : string -> option TsConfigResult)
    (aliasPath root resolved : string) :
  Path.isAbsolute cwd = true ->
  tsconfigAlias cwd getTsconfig aliasPath root = Some resolved ->
  Path.isAbsolute resolved = true
  /\ (exists segs : list string,
        resolved = "/" +:+ JS.join "/" segs /\ plainNames segs)
  /\ Path.resolve cwd [resolved] = resolved.
Proof.
  intros Hcwd Hts.
  assert (isResolved resolved) as Hres.
  { revert Hts. unfold tsconfigAlias.
    destruct (getTsconfig root) as [tsconfig|]; [|done].
    destruct (paths tsconfig) as [entries|]; [|done].
    by apply tsPathsLoop_isResolved. }
  split; [apply Hres|]. split; [|by apply resolve_resolved].
  exists (absoluteSegments resolved). split; [apply Hres|].
  by apply resolved_absolute.
Qed.

Lemma path_mapping_result_is_resolved_witness :
  let getTsconfig := fun _ : string =>
    Some {| tsPath := "/p/tsconfig.json"; baseUrl := Some "./src/../src/";
            paths := Some [("@/*", ["./lib//*"])] |} in
  Path.isAbsolute "/p" = true
  /\ tsconfigAlias "/p" getTsconfig "@/ui/../components/*.vue" "/p"
     = Some "/p/src/lib/components/*.vue"
  /\ Path.resolve "/p" ["/p/src/lib/components/*.vue"] = "/p/src/lib/components/*.vue".
Proof.
  intros getTsconfig.
  assert (Path.isAbsolute "/p" = true) as Hcwd by reflexivity.
  assert (tsconfigAlias "/p" getTsconfig "@/ui/../components/*.vue" "/p"
          = Some "/p/src/lib/components/*.vue") as Hts by (vm_compute; reflexivity).
  split; [exact Hcwd|]. split; [exact Hts|].
  exact (proj2 (proj2 (path_mapping_result_is_resolved "/p" getTsconfig
                         "@/ui/../components/*.vue" "/p"
                         "/p/src/lib/components/*.vue" Hcwd Hts))).
Defined.

(** ** Branches of the synthesized text *)

Lemma split_lines (lines : list string) :
  lines <> [] ->
  Forall (fun line => JS.includes JS.LF line = false) lines ->
  JS.split JS.LF (JS.join JS.nl lines) = lines.
Proof. exact (split_join JS.LF lines). Qed.

Lemma startsWith_quoted comp name tail tail' :
  JS.includes JS.DQ comp = false -> JS.includes JS.DQ name = false ->
  JS.startsWith (comp +:+ JS.dq +:+ tail) (name +:+ JS.dq +:+ tail') = true ->
  comp = name.
Proof.
  revert name. induction comp as [|a comp IH]; intros [|b name] Hc Hn.
  - done.
  - cbn [JS.includes] in Hn. apply orb_false_elim in Hn as [Hb _].
    change (JS.startsWith (String JS.DQ tail) (String b (name +:+ JS.dq +:+ tail'))
            = true -> EmptyString = String b name).
    cbn [JS.startsWith]. by rewrite Ascii.eqb_sym, Hb.
  - cbn [JS.includes] in Hc. apply orb_false_elim in Hc as [Ha _].
    change (JS.startsWith (String a (comp +:+ JS.dq +:+ tail)) (String JS.DQ tail')
            = true -> String a comp = EmptyString).
    cbn [JS.startsWith]. by rewrite Ha.
  - cbn [JS.includes] in Hc, Hn.
    apply orb_false_elim in Hc as [_ Hc]. apply orb_false_elim in Hn as [_ Hn].
    change (JS.startsWith (String a (comp +:+ JS.dq +:+ tail))
              (String b (name +:+ JS.dq +:+ tail')) = true
            -> String a comp = String b name).
    cbn [JS.startsWith]. intros [->%Ascii.eqb_eq H]%andb_prop.
    f_equal. by apply IH.
Qed.

Lemma startsWith_app_app a b c :
  JS.startsWith (a +:+ b) (a +:+ c) = JS.startsWith b c.
Proof.
  induction a as [|x a IH]; [done|].
  change (JS.startsWith (String x (a +:+ b)) (String x (a +:+ c))
          = JS.startsWith b c).
  cbn [JS.startsWith]. by rewrite Ascii.eqb_refl, IH.
Qed.

(** A render expression opens with the guard of [comp] exactly when
    [comp] is the display name in its own guard. *)
Lemma conditionalRender_fires comp clientDirective c :
  JS.includes JS.DQ comp = false -> JS.includes JS.DQ (compName c) = false ->
  JS.startsWith (guard comp) (conditionalRender clientDirective c) = fires comp c.
Proof.
  intros Hcomp Hname. unfold guard, conditionalRender.
  rewrite (startsWith_app_app "{ Astro.props.comp === "), (startsWith_app_app JS.dq).
  unfold fires. destruct (String.eqb_spec comp (compName c)) as [->|Hne].
  - rewrite startsWith_app_app, (startsWith_app_app JS.dq). apply startsWith_app.
  - apply not_true_is_false. intros H. apply Hne.
    by apply (startsWith_quoted _ _ _ _ Hcomp Hname H).
Qed.

Lemma filter_renders comp clientDirective (components : list Component) :
  JS.includes JS.DQ comp = false ->
  Forall (fun c => JS.includes JS.DQ (compName c) = false) components ->
  List.filter (JS.startsWith (guard comp))
    (conditionalRender clientDirective <$> components)
  = conditionalRender clientDirective <$> firing comp components.
Proof.
  intros Hcomp. induction 1 as [|c components Hc _ IH]; [done|].
  cbn [fmap list_fmap List.filter firing].
  rewrite (conditionalRender_fires comp clientDirective c Hcomp Hc).
  change (List.filter (fires comp) components) with (firing comp components).
  change (list_fmap _ _ (conditionalRender clientDirective) components)
    with (conditionalRender clientDirective <$> components).
  rewrite IH. by destruct (fires comp c).
Qed.

Lemma filter_imports comp cwd pattern baseDir isPathAlias srcDirAbsolute
    (components : list Component) :
  List.filter (JS.startsWith (guard comp))
    (importStatement cwd pattern baseDir isPathAlias srcDirAbsolute <$> components)
  = [].
Proof. induction components as [|c components IH]; [done|]. exact IH. Qed.

Lemma join_app sep (xs ys : list string) :
  xs <> [] -> ys <> [] ->
  JS.join sep (xs ++ ys) = JS.join sep xs +:+ sep +:+ JS.join sep ys.
Proof.
  intros Hxs Hys. induction xs as [|x xs IH]; [done|].
  destruct xs as [|x' xs].
  - destruct ys; [done|]. reflexivity.
  - change (JS.join sep ((x :: x' :: xs) ++ ys))
      with (x +:+ sep +:+ JS.join sep ((x' :: xs) ++ ys)).
    rewrite IH by done.
    change (JS.join sep (x :: x' :: xs)) with (x +:+ sep +:+ JS.join sep (x' :: xs)).
    by rewrite !app_assoc'.
Qed.

(** The lines of the synthesized text: the fence, the import statements,
    the Props interface, the destructuring, the fence, and the render
    expressions, one per component. *)
Lemma generated_lines cwd pattern baseDir clientDirective
    (components : list Component) isPathAlias srcDirAbsolute :
  components <> [] ->
  generateVirtualAstroComponent cwd pattern baseDir clientDirective components
    isPathAlias srcDirAbsolute
  = JS.join JS.nl
      (["---"]
       ++ (importStatement cwd pattern baseDir isPathAlias srcDirAbsolute
             <$> components)
       ++ [EmptyString;
           "interface Props {";
           "    comp: "
           +:+ JS.join " | " ((fun c => JS.dq +:+ compName c +:+ JS.dq) <$> components)
           +:+ ";";
           "    [key: string]: any;";
           "}";
           EmptyString;
           "const { comp, ...rest } = Astro.props;";
           "---";
           EmptyString]
       ++ (conditionalRender clientDirective <$> components)
       ++ [EmptyString]).
Proof.
  intros Hne. unfold generateVirtualAstroComponent. cbv zeta.
  assert (forall (A : Type) (f : Component -> A), f <$> components <> []) as Hmap
    by (intros A f; by destruct components).
  rewrite (join_app _ ["---"]) by (done || by destruct components).
  rewrite (join_app _ (_ <$> components)) by (done || apply Hmap).
  rewrite (join_app _ [EmptyString; _; _; _; _; _; _; _; _])
    by (done || by destruct components).
  rewrite (join_app _ (_ <$> components) [EmptyString]) by (done || apply Hmap).
  cbn [JS.join String.concat]. rewrite !app_assoc'. reflexivity.
Qed.

Lemma includes_LF_name clientDirective c :
  JS.includes JS.LF (conditionalRender clientDirective c) = false ->
  JS.includes JS.LF (compName c) = false.
Proof.
  unfold conditionalRender. rewrite !includes_app.
  intros H. repeat (apply orb_false_elim in H as [? H]); done.
Qed.

(** The branches [comp] fires in the synthesized text are the render
    expressions of the components whose display name is [comp]. *)
Lemma firingLines_generated comp cwd pattern baseDir clientDirective
    (components : list Component) isPathAlias srcDirAbsolute :
  components <> [] ->
  Forall (plainlyNamed cwd pattern baseDir clientDirective isPathAlias srcDirAbsolute)
    components ->
  JS.includes JS.DQ comp = false ->
  firingLines comp
    (generateVirtualAstroComponent cwd pattern baseDir clientDirective components
       isPathAlias srcDirAbsolute)
  = conditionalRender clientDirective <$> firing comp components.
Proof.
  intros Hne Hplain Hcomp. unfold firingLines.
  rewrite generated_lines by done.
  assert (Forall (fun c => JS.includes JS.DQ (compName c) = false) components)
    as Hquote by (eapply Forall_impl; [exact Hplain|]; by intros c (_ & _ & H)).
  assert (Forall (fun line => JS.includes JS.LF line = false)
            (importStatement cwd pattern baseDir isPathAlias srcDirAbsolute
               <$> components)) as Himports.
  { apply Forall_fmap. eapply Forall_impl; [exact Hplain|]. by intros c (H & _). }
  assert (Forall (fun line => JS.includes JS.LF line = false)
            (conditionalRender clientDirective <$> components)) as Hrenders.
  { apply Forall_fmap. eapply Forall_impl; [exact Hplain|]. by intros c (_ & H & _). }
  assert (JS.includes JS.LF
            ("    comp: "
             +:+ JS.join " | " ((fun c => JS.dq +:+ compName c +:+ JS.dq) <$> components)
             +:+ ";") = false) as Htypes.
  { rewrite !includes_app. cbn [orb].
    rewrite includes_join; [done|done|].
    apply Forall_fmap. eapply Forall_impl; [exact Hplain|].
    intros c (_ & H%includes_LF_name & _). unfold compose.
    by rewrite !includes_app, H. }
  rewrite split_lines.
  - rewrite !List.filter_app, filter_imports, filter_renders by done.
    cbn [app]. unfold guard.
    cbn [List.filter JS.startsWith String.append Ascii.eqb Bool.eqb andb app].
    by rewrite app_nil_r.
  - done.
  - apply Forall_app. split; [by repeat constructor|].
    apply Forall_app. split; [exact Himports|].
    apply Forall_app. split; [by repeat constructor|].
    apply Forall_app. split; [exact Hrenders|by repeat constructor].
Qed.

Lemma stripExtension_stem stem ext :
  ext <> EmptyString -> JS.includes "." ext = false ->
  JS.stripExtension (stem +:+ "." +:+ ext) = stem.
Proof.
  intros Hne Hdot. unfold JS.stripExtension.
  change (stem +:+ "." +:+ ext) with (stem +:+ String "." ext).
  rewrite lastIndexOf_app by done.
  assert ((S (String.length stem) <? String.length (stem +:+ String "." ext))%nat
          = true) as ->.
  { apply Nat.ltb_lt. rewrite length_app_str. destruct ext; [done|]. simpl. lia. }
  apply take_app_length.
Qed.

Lemma firing_intro comp (c : Component) (components : list Component) :
  c ∈ components -> fires comp c = true -> c ∈ firing comp components.
Proof.
  intros Hc Hf. induction components as [|d components IH];
    [by apply elem_of_nil in Hc|].
  cbn [firing List.filter]. apply elem_of_cons in Hc as [<-|Hc].
  - rewrite Hf. apply list_elem_of_here.
  - specialize (IH Hc). unfold firing in IH.
    destruct (fires comp d); [by apply list_elem_of_further|done].
Qed.

Lemma firing_two comp (c c' : Component) (components : list Component) :
  c ∈ components -> c' ∈ components -> c <> c' ->
  fires comp c = true -> fires comp c' = true ->
  2 <= List.length (firing comp components).
Proof.
  intros Hc Hc' Hne Hf Hf'.
  induction components as [|d components IH]; [by apply elem_of_nil in Hc|].
  cbn [firing List.filter].
  apply elem_of_cons in Hc as [->|Hc]; apply elem_of_cons in Hc' as [->|Hc'].
  - done.
  - rewrite Hf. cbn [List.length].
    pose proof (firing_elem comp c' components Hc' Hf'). unfold firing in *. lia.
  - rewrite Hf'. cbn [List.length].
    pose proof (firing_elem comp c components Hc Hf). unfold firing in *. lia.
  - specialize (IH Hc Hc'). unfold firing in IH.
    destruct (fires comp d); cbn [List.length]; lia.
Qed.

(** C3. In the text synthesized from the matched files, whose names
    hold neither a line feed nor a double quote, the lines that open
    with the guard of a matched file's display name are exactly the
    render expressions of the matched files that have this display name:
    the file's own is among them, so the name never misses; it is the
    only one when no two matched files have the same display name; and
    two matched files whose paths below the glob base differ in the
    extension only have the same display name, which fires the branch of
    either, two branches at least. *)
Theorem display_name_fires_its_branch
    (cwd pattern baseDir : string) (clientDirective : option string)
    (isPathAlias : bool) (srcDirAbsolute : string)
    (files : list string) (file : string) :
  file ∈ files ->
  let components := componentOf cwd baseDir <$> files in
  let text :=
    generateVirtualAstroComponent cwd pattern baseDir clientDirective components
      isPathAlias srcDirAbsolute in
  let comp := compName (componentOf cwd baseDir file) in
  let branch := fun f : string =>
    conditionalRender clientDirective (componentOf cwd baseDir f) in
  Forall (plainlyNamed cwd pattern baseDir clientDirective isPathAlias srcDirAbsolute)
    components ->
  firingLines comp text
  = branch <$> List.filter
                 (fun f => String.eqb comp (compName (componentOf cwd baseDir f)))
                 files
  /\ branch file ∈ firingLines comp text
  /\ JS.startsWith (guard comp) (branch file) = true
  /\ 1 <= List.length (firingLines comp text)
  /\ (NoDup (compName <$> components) -> firingLines comp text = [branch file])
  /\ (forall file' : string,
         file' ∈ files -> compName (componentOf cwd baseDir file') = comp ->
         branch file' ∈ firingLines comp text
         /\ (file' <> file -> 2 <= List.length (firingLines comp text)))
  /\ (forall file' stem ext ext' : string,
         file' ∈ files ->
         normalizePath (Path.relative cwd baseDir file) = stem +:+ "." +:+ ext ->
         normalizePath (Path.relative cwd baseDir file') = stem +:+ "." +:+ ext' ->
         ext <> EmptyString -> JS.includes "." ext = false ->
         ext' <> EmptyString -> JS.includes "." ext' = false ->
         comp = stem
         /\ compName (componentOf cwd baseDir file') = stem
         /\ branch file' ∈ firingLines comp text).
Proof.
  intros Hin components text comp branch Hplain.
  assert (components <> []) as Hne.
  { intros Hnil. apply (list_elem_of_fmap_2 (componentOf cwd baseDir)) in Hin as Hin2.
    fold components in Hin2. rewrite Hnil in Hin2. by apply elem_of_nil in Hin2. }
  assert (componentOf cwd baseDir file ∈ components) as Hc
    by by apply list_elem_of_fmap_2.
  assert (JS.includes JS.DQ comp = false) as Hcomp.
  { rewrite Forall_forall in Hplain. by destruct (Hplain _ Hc) as (_ & _ & H). }
  assert (firingLines comp text
          = conditionalRender clientDirective <$> firing comp components) as Hlines
    by by apply firingLines_generated.
  assert (forall f : string,
             f ∈ files -> compName (componentOf cwd baseDir f) = comp ->
             branch f ∈ firingLines comp text) as Hfires.
  { intros f Hf Hname. rewrite Hlines.
    apply (list_elem_of_fmap_2 (conditionalRender clientDirective)).
    apply firing_intro; [by apply list_elem_of_fmap_2|].
    unfold fires. rewrite Hname. by rewrite String.eqb_refl. }
  assert (1 <= List.length (firingLines comp text)) as Hone.
  { rewrite Hlines, length_fmap.
    apply (firing_elem comp (componentOf cwd baseDir file)); [done|].
    apply String.eqb_refl. }
  split.
  { rewrite Hlines. unfold firing, components. clear.
    induction files as [|f files IH]; [done|]. cbn [fmap list_fmap List.filter].
    unfold fires at 1. destruct (String.eqb comp _); cbn [fmap list_fmap]; by f_equal. }
  split; [by apply Hfires|].
  split.
  { unfold branch. rewrite conditionalRender_fires; [apply String.eqb_refl|done..]. }
  split; [exact Hone|].
  split.
  { intros Hnd. pose proof (firing_NoDup comp components Hnd) as Hle.
    pose proof (Hfires file Hin eq_refl) as Hmem.
    rewrite Hlines, length_fmap in Hone. rewrite Hlines in Hmem |- *.
    destruct (firing comp components) as [|c [|c' rest]]; cbn [List.length] in *;
      [lia| |lia].
    cbn [fmap list_fmap] in Hmem |- *. by apply list_elem_of_singleton in Hmem as <-. }
  split.
  { intros file' Hin' Hname. split; [by apply Hfires|]. intros Hdiff.
    rewrite Hlines, length_fmap.
    apply (firing_two comp (componentOf cwd baseDir file')
             (componentOf cwd baseDir file)); [by apply list_elem_of_fmap_2|done| | |].
    - intros Heq. apply Hdiff. by apply (f_equal filePath) in Heq.
    - unfold fires. rewrite Hname. apply String.eqb_refl.
    - apply String.eqb_refl. }
  intros file' stem ext ext' Hin' Hrel Hrel' Hext Hdot Hext' Hdot'.
  assert (comp = stem) as Hstem.
  { unfold comp, componentOf. cbn [compName]. rewrite Hrel.
    by apply stripExtension_stem. }
  assert (compName (componentOf cwd baseDir file') = stem) as Hstem'.
  { unfold componentOf. cbn [compName]. rewrite Hrel'. by apply stripExtension_stem. }
  split; [exact Hstem|]. split; [exact Hstem'|].
  apply Hfires; [done|]. by rewrite Hstem.
Qed.

Lemma display_name_fires_its_branch_witness :
  let files := ["/p/src/pages/buttons/Button.vue"; "/p/src/pages/buttons/Link.vue";
                "/p/src/pages/buttons/Button.jsx"] in
  let components := componentOf "/p" "/p/src/pages/buttons" <$> files in
  let text :=
    generateVirtualAstroComponent "/p" "./buttons/*.*" "/p/src/pages/buttons"
      (Some "client:load") components false "/p/src" in
  firingLines "Link" text
  = ["{ Astro.props.comp === " +:+ JS.dq +:+ "Link" +:+ JS.dq
     +:+ " && <Com_1c8517fc client:load {...rest} /> }"]
  /\ List.length (firingLines "Button" text) = 2.
Proof.
  intros files components text.
  assert (Forall (plainlyNamed "/p" "./buttons/*.*" "/p/src/pages/buttons"
                    (Some "client:load") false "/p/src") components) as Hplain
    by (repeat constructor; vm_compute; reflexivity).
  split.
  - destruct (display_name_fires_its_branch "/p" "./buttons/*.*"
                "/p/src/pages/buttons" (Some "client:load") false "/p/src" files
                "/p/src/pages/buttons/Link.vue") as (Hlines & _);
      [apply list_elem_of_further, list_elem_of_here|exact Hplain|].
    etrans; [exact Hlines|]. vm_compute. reflexivity.
  - destruct (display_name_fires_its_branch "/p" "./buttons/*.*"
                "/p/src/pages/buttons" (Some "client:load") false "/p/src" files
                "/p/src/pages/buttons/Button.vue") as (Hlines & _);
      [apply list_elem_of_here|exact Hplain|].
    etrans; [exact (f_equal (@List.length string) Hlines)|]. vm_compute. reflexivity.
Defined.
